(** * Script events of Aseprite: [app/script/events_class.cpp]

    A shallow embedding of the [Events] listener table, of its two concrete
    classes [AppEvents] and [SpriteEvents], of the Lua entry points
    [Events_on] and [Events_off], and of the process-wide registry
    [g_spriteEvents], together with the properties the specification states
    about them.

    Conventions.  C++ [int] values are [Z]; a [std::vector] is a [list]; a
    [std::map] is a [gmap].  Code that can dereference a null pointer, index
    a vector outside its bounds or use an invalidated iterator returns an
    [outcome], whose [Undefined] case stands for the C++ undefined behaviour.
    [ASSERT] is a debug-only macro and is left out: the definitions follow
    the release build. *)

From Stdlib Require Import ZArith Lia.
From stdpp Require Import base list gmap strings pretty.

Open Scope Z_scope.

(** ** Outcomes of code that may leave defined behaviour *)

Inductive fault : Set :=
| NullPointer      (* [p->f()] with [p == nullptr] *)
| OutOfRange       (* [v[i]] with [i >= v.size()] *)
| InvalidIterator. (* an iterator used after the vector was modified *)

Inductive outcome (A : Type) : Type :=
| Done (a : A)
| Undefined (f : fault).
Arguments Done {A} a.
Arguments Undefined {A} f.

#[global] Instance outcome_ret : MRet outcome := @Done.
#[global] Instance outcome_bind : MBind outcome := λ A B k m,
  match m with
  | Done a => k a
  | Undefined f => Undefined f
  end.

(** ** The [Events] base class *)

Abbreviation EventListener := Z (only parsing).    (* using EventListener = int; *)
Abbreviation EventType := Z (only parsing).        (* using EventType = int; *)
Abbreviation EventListeners := (list Z) (only parsing).

(** The three virtual member functions.  [S] is the state the overriding
    functions of a concrete class work on (its own data members and the
    observers of the host application they subscribe to). *)
Class EventsImpl (S : Type) := {
  eventType : string → EventType;
  onAddFirstListener : EventType → S → outcome S;
  onRemoveLastListener : EventType → S → outcome S;
}.

Record Events (S : Type) := mkEvents {
  m_listeners : list EventListeners;
  self : S;
}.
Arguments mkEvents {S} m_listeners self.
Arguments m_listeners {S} e.
Arguments self {S} e.

Section Events.
Context {S : Type} `{!EventsImpl S}.

Definition hasListener (callbackRef : EventListener) (ev : Events S) : bool :=
  existsb (λ listeners : EventListeners,
             existsb (λ listener, listener =? callbackRef) listeners)
          (m_listeners ev).

(** [Events::add].  [Events_on], its only caller, passes [eventType >= 0].
    With a negative [eventType] the comparison against [size()] is made in
    [size_t] and holds, and [resize(eventType+1)] followed by
    [m_listeners[eventType]] indexes outside the vector. *)
Definition add (eventType : EventType) (callbackRef : EventListener)
    (ev : Events S) : outcome (Events S) :=
  if eventType <? 0 then Undefined OutOfRange
  else
    let i := Z.to_nat eventType in
    let table :=
      if Z.of_nat (length (m_listeners ev)) <=? eventType
      then resize (Z.to_nat (eventType + 1)) [] (m_listeners ev)
      else m_listeners ev in
    let listeners := default [] (table !! i) ++ [callbackRef] in
    let table' := <[i := listeners]> table in
    if Z.of_nat (length listeners) =? 1
    then s ← onAddFirstListener eventType (self ev); Done (mkEvents table' s)
    else Done (mkEvents table' (self ev)).

(** The inner loop of [Events::remove]: erase every element equal to
    [callbackRef], and report in [removed] whether one was erased. *)
Fixpoint erase_all (callbackRef : EventListener) (listeners : EventListeners)
    : EventListeners * bool :=
  match listeners with
  | [] => ([], false)
  | listener :: rest =>
      let '(rest', removed) := erase_all callbackRef rest in
      if listener =? callbackRef then (rest', true)
      else (listener :: rest', removed)
  end.

(** The outer loop of [Events::remove], from index [i] on. *)
Fixpoint remove_from (callbackRef : EventListener) (i : Z)
    (table : list EventListeners) (s : S)
    : outcome (list EventListeners * S) :=
  match table with
  | [] => Done ([], s)
  | listeners :: rest =>
      let '(listeners', removed) := erase_all callbackRef listeners in
      s' ← (if removed && bool_decide (listeners' = [])
            then onRemoveLastListener i s else Done s);
      '(rest', s'') ← remove_from callbackRef (i + 1) rest s';
      Done (listeners' :: rest', s'')
  end.

Definition remove (callbackRef : EventListener) (ev : Events S)
    : outcome (Events S) :=
  '(table, s) ← remove_from callbackRef 0 (m_listeners ev) (self ev);
  Done (mkEvents table s).

(** The listeners of one event type; an index the table does not reach
    has none. *)
Definition listeners_of (eventType : EventType) (table : list EventListeners)
    : EventListeners :=
  if eventType <? 0 then [] else default [] (table !! Z.to_nat eventType).

Definition has_listeners (eventType : EventType) (table : list EventListeners)
    : bool :=
  negb (bool_decide (listeners_of eventType table = [])).
End Events.

(** ** A class that records the calls to its two hooks *)

Inductive hook_call : Set :=
| AddFirst (eventType : EventType)
| RemoveLast (eventType : EventType).

#[global] Instance hook_call_eq_dec : EqDecision hook_call.
Proof. solve_decision. Defined.

#[global] Instance RecordedEvents : EventsImpl (list hook_call) := {|
  eventType := λ _, -1;
  onAddFirstListener := λ e log, Done (log ++ [AddFirst e]);
  onRemoveLastListener := λ e log, Done (log ++ [RemoveLast e]);
|}.

(** Sequences of [add] and [remove] calls.  The event type of an [add] is
    one that [eventType] recognised, hence not negative. *)
Inductive op : Set :=
| OpAdd (eventType : nat) (callbackRef : EventListener)
| OpRemove (callbackRef : EventListener).

Section Runs.
Context {S : Type} `{!EventsImpl S}.

Definition step (o : op) (ev : Events S) : outcome (Events S) :=
  match o with
  | OpAdd e callbackRef => add (Z.of_nat e) callbackRef ev
  | OpRemove callbackRef => remove callbackRef ev
  end.

Fixpoint run (ops : list op) (ev : Events S) : outcome (Events S) :=
  match ops with
  | [] => Done ev
  | o :: rest => ev' ← step o ev; run rest ev'
  end.
End Runs.

(** The table a call leaves behind, as the recording class sees it. *)
Definition table_after (o : op) (table : list EventListeners)
    : list EventListeners :=
  match step o (mkEvents table ([] : list hook_call)) with
  | Done ev => m_listeners ev
  | Undefined _ => table
  end.

(** Number of calls of [ops], started on [table], that take the list of
    [e] from empty to non-empty ([rises]) and from non-empty to empty
    ([falls]). *)
Fixpoint rises (e : EventType) (table : list EventListeners) (ops : list op)
    : nat :=
  match ops with
  | [] => 0%nat
  | o :: rest =>
      let table' := table_after o table in
      ((if negb (has_listeners e table) && has_listeners e table'
        then 1 else 0) + rises e table' rest)%nat
  end.

Fixpoint falls (e : EventType) (table : list EventListeners) (ops : list op)
    : nat :=
  match ops with
  | [] => 0%nat
  | o :: rest =>
      let table' := table_after o table in
      ((if has_listeners e table && negb (has_listeners e table')
        then 1 else 0) + falls e table' rest)%nat
  end.

Definition calls_of (c : hook_call) (log : list hook_call) : nat :=
  length (filter (λ c', c' = c) log).


(** ** C strings *)

(** The first [unsigned char] of a C string; the terminating NUL when the
    text is exhausted. *)
Definition first_byte (s : string) : Z :=
  match s with
  | EmptyString => 0
  | String c _ => Z.of_N (Ascii.N_of_ascii c)
  end.

Definition string_tail (s : string) : string :=
  match s with
  | EmptyString => EmptyString
  | String _ rest => rest
  end.

(** [std::strcmp]: the bytes are compared up to the first difference or the
    first NUL. *)
Fixpoint strcmp (s1 s2 : string) : Z :=
  match s1 with
  | EmptyString => 0 - first_byte s2
  | String c rest =>
      let c1 := Z.of_N (Ascii.N_of_ascii c) in
      let c2 := first_byte s2 in
      if c1 =? c2
      then (if c1 =? 0 then 0 else strcmp rest (string_tail s2))
      else c1 - c2
  end.

(** The text a [const char*] denotes: the characters before the first NUL. *)
Fixpoint c_str (s : string) : string :=
  match s with
  | EmptyString => EmptyString
  | String c rest =>
      if Z.of_N (Ascii.N_of_ascii c) =? 0 then EmptyString
      else String c (c_str rest)
  end.

(** ASCII lower-casing, to speak about names that differ only in letter
    case. *)
Definition lower_ascii (c : Ascii.ascii) : Ascii.ascii :=
  let n := Ascii.N_of_ascii c in
  if ((65 <=? n) && (n <=? 90))%N then Ascii.ascii_of_N (n + 32) else c.

Fixpoint lower (s : string) : string :=
  match s with
  | EmptyString => EmptyString
  | String c rest => String (lower_ascii c) (lower rest)
  end.

(** ** [AppEvents] *)

Module AppEvents.

(* enum : EventType { Unknown = -1, SiteChange, FgColorChange, BgColorChange } *)
Definition Unknown : EventType := -1.
Definition SiteChange : EventType := 0.
Definition FgColorChange : EventType := 1.
Definition BgColorChange : EventType := 2.

(** Modelled from the spec: the subscriptions of the application-wide event
    source ([app/context.h], [app/pref/preferences.h] and the [obs] signals
    are not under src/).  [observing_context] tells whether this object is
    among the observers of the application context, [m_fgConn] and
    [m_bgConn] whether the connection to the colour preference's
    [AfterChange] signal is live. *)
Record t := mk {
  observing_context : bool;
  m_fgConn : bool;
  m_bgConn : bool;
}.

Definition eventType (eventName : string) : EventType :=
  if strcmp eventName "sitechange" =? 0 then SiteChange
  else if strcmp eventName "fgcolorchange" =? 0 then FgColorChange
  else if strcmp eventName "bgcolorchange" =? 0 then BgColorChange
  else Unknown.

Definition onAddFirstListener (eventType : EventType) (s : t) : outcome t :=
  if eventType =? SiteChange then Done (mk true (m_fgConn s) (m_bgConn s))
  else if eventType =? FgColorChange
       then Done (mk (observing_context s) true (m_bgConn s))
  else if eventType =? BgColorChange
       then Done (mk (observing_context s) (m_fgConn s) true)
  else Done s.

Definition onRemoveLastListener (eventType : EventType) (s : t) : outcome t :=
  if eventType =? SiteChange then Done (mk false (m_fgConn s) (m_bgConn s))
  else if eventType =? FgColorChange
       then Done (mk (observing_context s) false (m_bgConn s))
  else if eventType =? BgColorChange
       then Done (mk (observing_context s) (m_fgConn s) false)
  else Done s.

End AppEvents.

#[global] Instance AppEventsImpl : EventsImpl AppEvents.t := {|
  eventType := AppEvents.eventType;
  onAddFirstListener := AppEvents.onAddFirstListener;
  onRemoveLastListener := AppEvents.onRemoveLastListener;
|}.

(** ** The documents of the host application *)

Abbreviation ObjectId := N (only parsing).   (* doc::ObjectId *)
Abbreviation Doc := N (only parsing).   (* the identity of an [app::Doc] object *)

(** An observer is a [SpriteEvents] object; it is named by the sprite id it
    was constructed for. *)
Abbreviation Observer := N (only parsing).

Inductive host_call : Set :=
| DocAddObserver (doc : Doc) (o : Observer)
| DocRemoveObserver (doc : Doc) (o : Observer)
| UndoAddObserver (doc : Doc) (o : Observer)
| UndoRemoveObserver (doc : Doc) (o : Observer).

(** Modelled from the spec: the document model ([doc/objects.h],
    [app/doc.h], [app/doc_undo.h] are not under src/), at its interface
    "subscribe(observer) / unsubscribe(observer)".  [sprites] maps the id of
    each live sprite to its document ([doc::get<Sprite>(id)] followed by
    [sprite->document()], which may be null); the two sets hold the
    observers of each document and of each document's undo history;
    [host_calls] lists the calls made to them, oldest first. *)
Record Host := mkHost {
  sprites : gmap ObjectId (option Doc);
  doc_observers : gset (Doc * Observer);
  undo_observers : gset (Doc * Observer);
  host_calls : list host_call;
}.

Definition doc_add_observer (d : Doc) (o : Observer) (h : Host) : Host :=
  mkHost (sprites h) ({[ (d, o) ]} ∪ doc_observers h) (undo_observers h)
         (host_calls h ++ [DocAddObserver d o]).

Definition doc_remove_observer (d : Doc) (o : Observer) (h : Host) : Host :=
  mkHost (sprites h) (doc_observers h ∖ {[ (d, o) ]}) (undo_observers h)
         (host_calls h ++ [DocRemoveObserver d o]).

Definition undo_add_observer (d : Doc) (o : Observer) (h : Host) : Host :=
  mkHost (sprites h) (doc_observers h) ({[ (d, o) ]} ∪ undo_observers h)
         (host_calls h ++ [UndoAddObserver d o]).

Definition undo_remove_observer (d : Doc) (o : Observer) (h : Host) : Host :=
  mkHost (sprites h) (doc_observers h) (undo_observers h ∖ {[ (d, o) ]})
         (host_calls h ++ [UndoRemoveObserver d o]).

(** ** [SpriteEvents] *)

Module SpriteEvents.

(* enum : EventType { Unknown = -1, Change, FilenameChange } *)
Definition Unknown : EventType := -1.
Definition Change : EventType := 0.
Definition FilenameChange : EventType := 1.

(** The data members of the class. *)
Record t := mk {
  m_spriteId : ObjectId;
  m_observingUndo : bool;
}.

Definition eventType (eventName : string) : EventType :=
  if strcmp eventName "change" =? 0 then Change
  else if strcmp eventName "filenamechange" =? 0 then FilenameChange
  else Unknown.

(** [SpriteEvents::doc]: the document is looked up from the sprite id at
    every call; [None] is the null pointer. *)
Definition doc (this : t) (h : Host) : option Doc :=
  match sprites h !! m_spriteId this with
  | Some sprite => sprite
  | None => None
  end.

Definition disconnectFromUndoHistory (doc : option Doc) (this : t) (h : Host)
    : outcome (t * Host) :=
  if m_observingUndo this then
    match doc with
    | Some d =>
        Done (mk (m_spriteId this) false,
              undo_remove_observer d (m_spriteId this) h)
    | None => Undefined NullPointer
    end
  else Done (this, h).

Definition onAddFirstListener (eventType : EventType) (s : t * Host)
    : outcome (t * Host) :=
  let '(this, h) := s in
  if eventType =? Change then
    match doc this h with
    | Some d =>
        Done (mk (m_spriteId this) true,
              undo_add_observer d (m_spriteId this) h)
    | None => Undefined NullPointer
    end
  else Done s.

Definition onRemoveLastListener (eventType : EventType) (s : t * Host)
    : outcome (t * Host) :=
  let '(this, h) := s in
  if eventType =? Change then disconnectFromUndoHistory (doc this h) this h
  else Done s.

(** The constructor, for the sprite with id [sprite]. *)
Definition create (sprite : ObjectId) (h : Host) : outcome (t * Host) :=
  let this := mk sprite false in
  match doc this h with
  | Some d => Done (this, doc_add_observer d sprite h)
  | None => Undefined NullPointer
  end.

(** The destructor. *)
Definition destroy (this : t) (h : Host) : outcome Host :=
  match doc this h with
  | Some d =>
      '(this', h') ← disconnectFromUndoHistory (Some d) this h;
      Done (doc_remove_observer d (m_spriteId this') h')
  | None => Done h
  end.

End SpriteEvents.

#[global] Instance SpriteEventsImpl : EventsImpl (SpriteEvents.t * Host) := {|
  eventType := SpriteEvents.eventType;
  onAddFirstListener := SpriteEvents.onAddFirstListener;
  onRemoveLastListener := SpriteEvents.onRemoveLastListener;
|}.

(** ** The Lua side *)

(** Lua values, as far as this file tells them apart.  Functions, tables and
    userdata are compared by identity.  Floating-point numbers are not
    modelled. *)
Inductive lua_value : Set :=
| LuaNil
| LuaBoolean (b : bool)
| LuaInteger (i : Z)
| LuaString (s : string)
| LuaFunction (id : N)
| LuaTable (id : N)
| LuaUserdata (id : N).

#[global] Instance lua_value_eq_dec : EqDecision lua_value.
Proof. solve_decision. Defined.

Definition lua_isfunction (v : lua_value) : bool :=
  match v with LuaFunction _ => true | _ => false end.

Definition lua_isinteger (v : lua_value) : bool :=
  match v with LuaInteger _ => true | _ => false end.

Definition lua_tointeger (v : lua_value) : Z :=
  match v with LuaInteger i => i | _ => 0 end.

(** [lua_tostring]: a string is returned as it is, a number is converted to
    its decimal text, and any other value gives [NULL]. *)
Definition lua_tostring (v : lua_value) : option string :=
  match v with
  | LuaString s => Some s
  | LuaInteger i => Some (pretty i)
  | _ => None
  end.

(** Conversion of a 64-bit [lua_Integer] to [int]. *)
Definition to_int (i : Z) : Z := (i + 2 ^ 31) mod 2 ^ 32 - 2 ^ 31.

Definition LUA_REFNIL : Z := -1.

(** The Lua registry ([LUA_REGISTRYINDEX]) at its integer keys, where
    [luaL_ref] keeps the callbacks.  Entries under other keys (the names of
    metatables) fail the [lua_isnumber] test of [Events_off] and are left
    out. *)
Record lua_State := mkLua {
  registry : gmap Z lua_value;
}.

Definition lua_rawgeti (L : lua_State) (n : Z) : lua_value :=
  default LuaNil (registry L !! n).

Definition luaL_unref (ref : Z) (L : lua_State) : lua_State :=
  if 0 <=? ref then mkLua (delete ref (registry L)) else L.

(** What a script sees: the Lua state and the [Events] object it holds. *)
Record Script (S : Type) := mkScript {
  lua : lua_State;
  evs : Events S;
}.
Arguments mkScript {S} lua evs.
Arguments lua {S} s.
Arguments evs {S} s.

(** How a Lua C function ends: [return n] with [n] values pushed, or
    [luaL_error]. *)
Inductive lua_return : Set :=
| Returns (results : list lua_value)
| Raises (message : string).

(** What [lua_pcall] reports: [LUA_OK], an error status with the error value
    on the stack, or a C++ exception that leaves it. *)
Inductive pcall_result : Set :=
| PcallOk
| PcallError (err : lua_value)
| PcallThrows (what : string).

(** What [Events::call] does, step by step: it calls a listener through
    [lua_pcall], which reports [status], or it prints a line on the
    console ([engine->consolePrint]). *)
Inductive call_event : Set :=
| Called (callbackRef : EventListener) (status : pcall_result)
| Printed (text : string).

Section Script.
Context {S : Type} `{!EventsImpl S}.

(** The index [luaL_ref] stores a value at: one the registry does not use.
    Which one is up to Lua. *)
Variable free_ref : gmap Z lua_value → Z.

Definition luaL_ref (v : lua_value) (L : lua_State) : Z * lua_State :=
  match v with
  | LuaNil => (LUA_REFNIL, L)
  | _ => let ref := free_ref (registry L) in
         (ref, mkLua (<[ref := v]> (registry L)))
  end.

(** [events:on(eventName, callback)] *)
Definition Events_on (eventName callback : lua_value) (w : Script S)
    : outcome (lua_return * Script S) :=
  match lua_tostring eventName with
  | None => Done (Returns [], w)
  | Some name =>
      let type := eventType name in
      if type <? 0 then Done (Raises "invalid event name to listen", w)
      else if negb (lua_isfunction callback)
      then Done (Raises "second argument must be a function", w)
      else
        let '(callbackRef, L) := luaL_ref callback (lua w) in
        evs' ← add type callbackRef (evs w);
        Done (Returns [LuaInteger callbackRef], mkScript L evs')
  end.

(** The loop over the registry in [Events_off]: the first entry, in the
    order [lua_next] visits them, whose value is a function equal to [fn]
    and whose key, converted to [int], is a listener of this object.  Every
    key of [registry] is a number, so the [lua_isnumber] test holds. *)
Definition find_callback (fn : lua_value) (w : Script S) : Z :=
  match find (λ '(key, value),
                lua_isfunction value
                && bool_decide (value = fn)
                && hasListener (to_int key) (evs w))
             (map_to_list (registry (lua w))) with
  | Some (key, _) => to_int key
  | None => LUA_REFNIL
  end.

(** [events:off(x)] *)
Definition Events_off (x : lua_value) (w : Script S)
    : outcome (lua_return * Script S) :=
  let finish (callbackRef : Z) : outcome (lua_return * Script S) :=
    if negb (callbackRef =? LUA_REFNIL) && hasListener callbackRef (evs w)
    then
      evs' ← remove callbackRef (evs w);
      Done (Returns [], mkScript (luaL_unref callbackRef (lua w)) evs')
    else Done (Returns [], w) in
  if lua_isinteger x then finish (to_int (lua_tointeger x))
  else if lua_isfunction x then finish (find_callback x w)
  else Done (Raises "first argument must be a function or a EventListener", w).

(** [lua_pcall] on the value [lua_rawgeti] pushed.  The callback is script
    code: it may call [on] and [off] on the same [Events] object. *)
Variable lua_pcall : lua_value → Script S → pcall_result * Script S.

(** The range-based [for] of [Events::call] over [m_listeners[eventType]].
    [pending] is what lies between the iterator and the end iterator taken
    when the loop started.  Both are invalidated when a callback makes the
    vector grow or shrink ([push_back] in [add], [erase] in [remove]), and
    the next step of the loop uses them.  A [std::exception] is caught
    outside the loop and ends it. *)
Fixpoint call_loop (eventType : EventType) (pending : EventListeners)
    (w : Script S) : outcome (list call_event * Script S) :=
  match pending with
  | [] => Done ([], w)
  | callbackRef :: rest =>
      let '(status, w') := lua_pcall (lua_rawgeti (lua w) callbackRef) w in
      match status with
      | PcallThrows what =>
          Done ([Called callbackRef status; Printed what], w')
      | _ =>
          let printed :=
            match status with
            | PcallError err =>
                match lua_tostring err with
                | Some s => [Printed s]
                | None => []
                end
            | _ => []
            end in
          if bool_decide (listeners_of eventType (m_listeners (evs w'))
                          = listeners_of eventType (m_listeners (evs w)))
          then
            '(events, w'') ← call_loop eventType rest w';
            Done (Called callbackRef status :: printed ++ events, w'')
          else Undefined InvalidIterator
      end
  end.

(** [Events::call].  The comparison with [size()] is made in [size_t], so a
    negative [eventType] returns at once. *)
Definition call (eventType : EventType) (w : Script S)
    : outcome (list call_event * Script S) :=
  if (eventType <? 0) || (Z.of_nat (length (m_listeners (evs w))) <=? eventType)
  then Done ([], w)
  else call_loop eventType (listeners_of eventType (m_listeners (evs w))) w.

End Script.

(** The listeners [call] called, what [lua_pcall] reported for each, and
    the lines printed, each in order. *)
Definition called (events : list call_event) : list EventListener :=
  omap (λ e, match e with Called r _ => Some r | Printed _ => None end) events.

Definition statuses (events : list call_event) : list pcall_result :=
  omap (λ e, match e with Called _ st => Some st | Printed _ => None end)
       events.

Definition printed (events : list call_event) : list string :=
  omap (λ e, match e with Printed s => Some s | Called _ _ => None end) events.

(** The line a status puts on the console, if any: the error value when
    [lua_tostring] accepts it, or the exception's [what()]. *)
Definition message_of (status : pcall_result) : option string :=
  match status with
  | PcallOk => None
  | PcallError err => lua_tostring err
  | PcallThrows what => Some what
  end.

Definition throws (status : pcall_result) : bool :=
  match status with PcallThrows _ => true | _ => false end.

(** No callback registers or unregisters a listener of the table it is
    called from. *)
Definition keeps_table {S : Type}
    (lua_pcall : lua_value → Script S → pcall_result * Script S) : Prop :=
  ∀ fn w, m_listeners (evs (lua_pcall fn w).2) = m_listeners (evs w).

(** The notifications the two classes receive from the host; each of them
    is a [call]. *)
Section Notifications.
Variable app_pcall :
  lua_value → Script AppEvents.t → pcall_result * Script AppEvents.t.
Variable sprite_pcall :
  lua_value → Script (SpriteEvents.t * Host)
  → pcall_result * Script (SpriteEvents.t * Host).

Definition AppEvents_onActiveSiteChange := call app_pcall AppEvents.SiteChange.
Definition AppEvents_onFgColorChange := call app_pcall AppEvents.FgColorChange.
Definition AppEvents_onBgColorChange := call app_pcall AppEvents.BgColorChange.

Definition SpriteEvents_onFileNameChanged :=
  call sprite_pcall SpriteEvents.FilenameChange.
Definition SpriteEvents_onAddUndoState :=
  call sprite_pcall SpriteEvents.Change.
Definition SpriteEvents_onCurrentUndoStateChange :=
  call sprite_pcall SpriteEvents.Change.
End Notifications.

(** ** The process-wide objects *)

(** What is connected to [App::instance()->Exit]. *)
Inductive exit_slot : Set :=
| ResetAppEvents       (* []{ g_appEvents.reset(); } *)
| ClearSpriteEvents.   (* []{ g_spriteEvents.clear(); } *)

#[global] Instance exit_slot_eq_dec : EqDecision exit_slot.
Proof. solve_decision. Defined.

Record Globals := mkGlobals {
  g_appEvents : option (Events AppEvents.t);
  g_spriteEvents : gmap ObjectId (Events SpriteEvents.t);
  atExit : bool;                 (* the static flag of push_sprite_events *)
  Exit : list exit_slot;         (* the slots of the Exit signal, in order *)
  host : Host;
}.

(** [SpriteEvents::onCloseDocument], received by the object [this]. *)
Definition onCloseDocument (this : SpriteEvents.t) (g : Globals)
    : outcome Globals :=
  match g_spriteEvents g !! SpriteEvents.m_spriteId this with
  | Some owned =>
      (* erase(it) destroys the object the unique_ptr owns *)
      h ← SpriteEvents.destroy (self owned) (host g);
      Done (mkGlobals (g_appEvents g)
                      (delete (SpriteEvents.m_spriteId this) (g_spriteEvents g))
                      (atExit g) (Exit g) h)
  | None => Done g
  end.

(** The destructors [g_spriteEvents.clear()] runs, one object after the
    other. *)
Fixpoint destroy_all (objects : list (ObjectId * Events SpriteEvents.t))
    (h : Host) : outcome Host :=
  match objects with
  | [] => Done h
  | (_, object) :: rest =>
      h' ← SpriteEvents.destroy (self object) h;
      destroy_all rest h'
  end.

Definition run_exit_slot (slot : exit_slot) (g : Globals) : outcome Globals :=
  match slot with
  | ResetAppEvents =>
      Done (mkGlobals None (g_spriteEvents g) (atExit g) (Exit g) (host g))
  | ClearSpriteEvents =>
      h ← destroy_all (map_to_list (g_spriteEvents g)) (host g);
      Done (mkGlobals (g_appEvents g) ∅ (atExit g) (Exit g) h)
  end.

Fixpoint run_exit_slots (slots : list exit_slot) (g : Globals)
    : outcome Globals :=
  match slots with
  | [] => Done g
  | slot :: rest => g' ← run_exit_slot slot g; run_exit_slots rest g'
  end.

(** The application raises its [Exit] signal. *)
Definition App_Exit (g : Globals) : outcome Globals :=
  run_exit_slots (Exit g) g.

(** [push_app_events]; the pointer pushed is that of [g_appEvents]. *)
Definition push_app_events (g : Globals) : Globals :=
  match g_appEvents g with
  | Some _ => g
  | None =>
      mkGlobals (Some (mkEvents [] (AppEvents.mk false false false)))
                (g_spriteEvents g) (atExit g) (Exit g ++ [ResetAppEvents])
                (host g)
  end.

(** [push_sprite_events], for the live sprite with id [sprite]; the object
    pushed is the one registered under that id. *)
Definition push_sprite_events (sprite : ObjectId) (g : Globals)
    : outcome Globals :=
  let slots := if atExit g then Exit g else Exit g ++ [ClearSpriteEvents] in
  match g_spriteEvents g !! sprite with
  | Some _ =>
      Done (mkGlobals (g_appEvents g) (g_spriteEvents g) true slots (host g))
  | None =>
      '(this, h) ← SpriteEvents.create sprite (host g);
      Done (mkGlobals (g_appEvents g)
                      (<[sprite := mkEvents [] this]> (g_spriteEvents g))
                      true slots h)
  end.

(** The event types whose list [remove callbackRef] empties, counted from
    index [i] for the first list of [table]: the list held [callbackRef]
    and nothing else. *)
Fixpoint emptied_by (callbackRef : EventListener) (i : Z)
    (table : list EventListeners) : list EventType :=
  match table with
  | [] => []
  | listeners :: rest =>
      (if bool_decide (listeners ≠ [])
          && bool_decide (filter (λ x, x ≠ callbackRef) listeners = [])
       then [i] else [])
      ++ emptied_by callbackRef (i + 1) rest
  end.

(** The calls [hook e1], [hook e2], ... one after the other. *)
Fixpoint run_hooks {S : Type} (hook : EventType → S → outcome S)
    (types : list EventType) (s : S) : outcome S :=
  match types with
  | [] => Done s
  | e :: rest => s' ← hook e s; run_hooks hook rest s'
  end.

(** The state of the globals that [push_sprite_events] maintains: once the
    static flag is set the slot that clears the registry is connected, and
    the registry is empty until then. *)
Definition exit_connected (g : Globals) : Prop :=
  (atExit g = true → ClearSpriteEvents ∈ Exit g)
  ∧ ∀ id object, g_spriteEvents g !! id = Some object → atExit g = true.

(** The globals when the program starts. *)
Definition no_globals (h : Host) : Globals := mkGlobals None ∅ false [] h.

(** ** Sample objects, for the worked cases *)

(** An allocator for [luaL_ref]: the index after the largest one in use. *)
Definition next_ref (r : gmap Z lua_value) : Z :=
  1 + map_fold (λ key _ top, Z.max key top) 0 r.

(** The application's events before any script has touched them. *)
Definition fresh_app : Script AppEvents.t :=
  mkScript (mkLua ∅) (mkEvents [] (AppEvents.mk false false false)).

(** The same after [on("sitechange", f)], where [f] is function 7 and
    [luaL_ref] gave reference 1. *)
Definition listening_app : Script AppEvents.t :=
  mkScript (mkLua {[ 1 := LuaFunction 7 ]})
           (mkEvents [[1]] (AppEvents.mk true false false)).

(** Three listeners of "sitechange": references 1, 2 and 3 hold the
    functions 1, 2 and 3. *)
Definition three_listeners : Script AppEvents.t :=
  mkScript (mkLua (<[1 := LuaFunction 1]>
                     (<[2 := LuaFunction 2]> {[ 3 := LuaFunction 3 ]})))
           (mkEvents [[1; 2; 3]] (AppEvents.mk true false false)).

(** Callbacks that leave the table alone: function 1 raises a Lua error
    whose value is a table, function 2 lets a [std::exception] escape,
    function 4 raises the error "bad", every other function returns. *)
Definition failing_pcall (fn : lua_value) (w : Script AppEvents.t)
    : pcall_result * Script AppEvents.t :=
  match fn with
  | LuaFunction 1 => (PcallError (LuaTable 0), w)
  | LuaFunction 2 => (PcallThrows "boom", w)
  | LuaFunction 4 => (PcallError (LuaString "bad"), w)
  | LuaFunction _ => (PcallOk, w)
  | _ => (PcallError (LuaString "attempt to call a nil value"), w)
  end.

(** Callbacks that use the table they are called from: function 1 is a
    listener that unregisters itself, [events:off(1)]; function 2 registers
    another listener of the same event, [events:on("sitechange", f9)]. *)
Definition reentrant_pcall (fn : lua_value) (w : Script AppEvents.t)
    : pcall_result * Script AppEvents.t :=
  let finish (r : outcome (lua_return * Script AppEvents.t)) :=
    match r with
    | Done (Returns _, w') => (PcallOk, w')
    | Done (Raises message, w') => (PcallError (LuaString message), w')
    | Undefined _ => (PcallOk, w)
    end in
  match fn with
  | LuaFunction 1 => finish (Events_off (LuaInteger 1) w)
  | LuaFunction 2 =>
      finish (Events_on next_ref (LuaString "sitechange") (LuaFunction 9) w)
  | LuaFunction _ => (PcallOk, w)
  | _ => (PcallError (LuaString "attempt to call a nil value"), w)
  end.

(** Listeners 1, 2 and 3 holding the functions 1, 4 and 3: with
    [failing_pcall] two of them raise a Lua error and none throws. *)
Definition lua_errors_only : Script AppEvents.t :=
  mkScript (mkLua (<[1 := LuaFunction 1]>
                     (<[2 := LuaFunction 4]> {[ 3 := LuaFunction 3 ]})))
           (mkEvents [[1; 2; 3]] (AppEvents.mk true false false)).

(** The listeners 2 and 3 of [three_listeners] alone. *)
Definition two_listeners : Script AppEvents.t :=
  mkScript (lua three_listeners)
           (mkEvents [[2; 3]] (AppEvents.mk true false false)).

(** A callback that returns without touching anything. *)
Definition quiet_pcall {S : Type} (fn : lua_value) (w : Script S)
    : pcall_result * Script S :=
  (PcallOk, w).

(** The events of sprite 5 once the sprite is no longer among the live
    objects: the object still has its "change" listener (reference 1) and
    still observes the undo history of document 2. *)
Definition stale_host : Host :=
  mkHost ∅ {[ (2%N, 5%N) ]} {[ (2%N, 5%N) ]} [].

Definition stale_sprite : Script (SpriteEvents.t * Host) :=
  mkScript (mkLua {[ 1 := LuaFunction 7 ]})
           (mkEvents [[1]] (SpriteEvents.mk 5 true, stale_host)).

(** The same object before it had a listener. *)
Definition stale_sprite_idle : Script (SpriteEvents.t * Host) :=
  mkScript (mkLua ∅)
           (mkEvents [] (SpriteEvents.mk 5 false,
                         mkHost ∅ {[ (2%N, 5%N) ]} ∅ [])).

(** Two open sprites, 5 in document 2 and 6 in document 3, both with a
    [SpriteEvents]; the first one has a "change" listener. *)
Definition two_open_sprites : Globals :=
  mkGlobals None
    (<[5%N := mkEvents [[1]] (SpriteEvents.mk 5 true)]>
       {[ 6%N := mkEvents [] (SpriteEvents.mk 6 false) ]})
    true [ClearSpriteEvents]
    (mkHost (<[5%N := Some 2%N]> {[ 6%N := Some 3%N ]})
            ({[ (2%N, 5%N) ]} ∪ {[ (3%N, 6%N) ]})
            {[ (2%N, 5%N) ]}
            []).

(** ** States the objects are kept in *)

(** The application's events are subscribed to a notification exactly while
    the event has a listener. *)
Definition app_subscribed (ev : Events AppEvents.t) : Prop :=
  AppEvents.observing_context (self ev)
  = has_listeners AppEvents.SiteChange (m_listeners ev)
  ∧ AppEvents.m_fgConn (self ev)
    = has_listeners AppEvents.FgColorChange (m_listeners ev)
  ∧ AppEvents.m_bgConn (self ev)
    = has_listeners AppEvents.BgColorChange (m_listeners ev).

(** The events of a sprite whose document [d] is found: the object
    observes the undo history of [d] exactly while "change" has a listener,
    and [m_observingUndo] says so. *)
Definition sprite_subscribed (d : Doc) (ev : Events (SpriteEvents.t * Host))
    : Prop :=
  let this := (self ev).1 in
  let h := (self ev).2 in
  SpriteEvents.doc this h = Some d
  ∧ SpriteEvents.m_observingUndo this
    = has_listeners SpriteEvents.Change (m_listeners ev)
  ∧ ((d, SpriteEvents.m_spriteId this) ∈ undo_observers h
     ↔ SpriteEvents.m_observingUndo this = true).

(** The events of sprite 5 of document 2, just created. *)
Definition live_sprite : Events (SpriteEvents.t * Host) :=
  mkEvents [] (SpriteEvents.mk 5 false,
               mkHost {[ 5%N := Some 2%N ]} {[ (2%N, 5%N) ]} ∅ []).

(** Every listener of the table is a reference under which the registry
    holds a function. *)
Definition listeners_registered {S : Type} (w : Script S) : Prop :=
  ∀ ref, hasListener ref (evs w) = true →
         lua_isfunction (lua_rawgeti (lua w) ref) = true.

(** Every object of [g_spriteEvents] is registered under the id of its own
    sprite and, when the document of the sprite is found, is among the
    observers of that document. *)
Definition sprite_registry_wf (g : Globals) : Prop :=
  ∀ id object,
    g_spriteEvents g !! id = Some object →
    SpriteEvents.m_spriteId (self object) = id
    ∧ ∀ d, SpriteEvents.doc (self object) (host g) = Some d →
           (d, id) ∈ doc_observers (host g).

(** A host with one open sprite, 5, in document 2, that nothing observes. *)
Definition open_document : Host :=
  mkHost {[ 5%N := Some 2%N ]} ∅ ∅ [].

(** * Properties *)

(** ** Outcomes *)

Lemma bind_Done {A B} (m : outcome A) (k : A → outcome B) (b : B) :
  m ≫= k = Done b → ∃ a, m = Done a ∧ k a = Done b.
Proof. destruct m as [a|f]; [eauto|done]. Qed.

Ltac bind_inv H :=
  let a := fresh "a" in
  let E := fresh "E" in
  apply bind_Done in H as (a & E & H).

(** ** The listener table *)

Section EventsFacts.
Context {S : Type} `{!EventsImpl S}.

Lemma erase_all_filter callbackRef listeners :
  erase_all callbackRef listeners
  = (filter (λ x, x ≠ callbackRef) listeners,
     bool_decide (callbackRef ∈ listeners)).
Proof.
  induction listeners as [|x l IH]; [done|]. cbn [erase_all].
  rewrite IH. destruct (Z.eqb_spec x callbackRef) as [->|Hne].
  - rewrite filter_cons_False by tauto.
    f_equal. symmetry. apply bool_decide_eq_true. left.
  - rewrite filter_cons_True by done. f_equal.
    apply bool_decide_ext. rewrite elem_of_cons. intuition congruence.
Qed.

Lemma filter_empty_elem callbackRef (listeners : EventListeners) :
  listeners ≠ [] →
  filter (λ x, x ≠ callbackRef) listeners = [] →
  callbackRef ∈ listeners.
Proof.
  destruct listeners as [|x l]; [done|]. intros _ Hf.
  destruct (decide (x = callbackRef)) as [->|Hne]; [left|].
  by rewrite filter_cons_True in Hf.
Qed.

Lemma erase_all_emptied callbackRef listeners :
  (let '(listeners', removed) := erase_all callbackRef listeners in
   removed && bool_decide (listeners' = []))
  = bool_decide (listeners ≠ [])
    && bool_decide (filter (λ x, x ≠ callbackRef) listeners = []).
Proof.
  rewrite erase_all_filter.
  destruct (decide (filter (λ x, x ≠ callbackRef) listeners = [])) as [Hf|Hf].
  - rewrite !(bool_decide_eq_true_2 _ Hf), !andb_true_r.
    apply bool_decide_ext. split.
    + intros Hin ->. by apply not_elem_of_nil in Hin.
    + intros Hne. by apply filter_empty_elem.
  - by rewrite !(bool_decide_eq_false_2 _ Hf), !andb_false_r.
Qed.

Lemma hasListener_elem callbackRef (ev : Events S) :
  hasListener callbackRef ev = true
  ↔ ∃ listeners, listeners ∈ m_listeners ev ∧ callbackRef ∈ listeners.
Proof.
  unfold hasListener. rewrite existsb_exists. split.
  - intros (l & Hl & Hex). apply existsb_exists in Hex as (x & Hx & Heq).
    apply Z.eqb_eq in Heq as ->. exists l.
    by rewrite <- !list_elem_of_In in *.
  - intros (l & Hl & Hx). exists l. rewrite <- list_elem_of_In. split; [done|].
    apply existsb_exists. exists callbackRef.
    rewrite <- list_elem_of_In, Z.eqb_eq. done.
Qed.

(** Whatever the class, a [remove] that returns has erased [callbackRef]
    from every list and kept the rest. *)
Lemma remove_from_table callbackRef table : ∀ i s table' s',
  remove_from callbackRef i table s = Done (table', s') →
  table' = map (filter (λ x, x ≠ callbackRef)) table.
Proof.
  induction table as [|l rest IH]; simpl; intros i s table' s' H.
  - by inversion H.
  - rewrite erase_all_filter in H.
    bind_inv H. bind_inv H. destruct a0 as [rest' s2].
    inversion H; subst. f_equal. by eapply IH.
Qed.

Lemma remove_table callbackRef (ev ev' : Events S) :
  remove callbackRef ev = Done ev' →
  m_listeners ev' = map (filter (λ x, x ≠ callbackRef)) (m_listeners ev).
Proof.
  unfold remove. intros H. bind_inv H. destruct a as [t s].
  inversion H; subst; simpl. by eapply remove_from_table.
Qed.

Lemma hasListener_filtered callbackRef table (s : S) :
  hasListener callbackRef
    (mkEvents (map (filter (λ x, x ≠ callbackRef)) table) s) = false.
Proof.
  apply not_true_iff_false. rewrite hasListener_elem. simpl.
  intros (l & Hl & Hx). apply list_elem_of_fmap in Hl as (l0 & -> & _).
  apply list_elem_of_filter in Hx as [Hne _]. done.
Qed.

Lemma remove_hasListener callbackRef (ev ev' : Events S) :
  remove callbackRef ev = Done ev' → hasListener callbackRef ev' = false.
Proof.
  intros H. apply remove_table in H. destruct ev' as [t s]; simpl in *; subst.
  apply hasListener_filtered.
Qed.

End EventsFacts.

Section AddFacts.
Context {S : Type} `{!EventsImpl S}.

(** The table of [add] after its [resize] and [push_back]. *)
Lemma listeners_of_pushed e callbackRef (table : list (list Z)) :
  0 ≤ e →
  let grown := if Z.of_nat (length table) <=? e
               then resize (Z.to_nat (e + 1)) [] table else table in
  default [] (grown !! Z.to_nat e) = listeners_of e table
  ∧ ∀ e',
      listeners_of e'
        (<[Z.to_nat e := listeners_of e table ++ [callbackRef]]> grown)
      = if bool_decide (e' = e)
        then listeners_of e table ++ [callbackRef]
        else listeners_of e' table.
Proof.
  intros He grown.
  assert (Hlen : (Z.to_nat e < length grown)%nat).
  { subst grown. destruct (Z.leb_spec (Z.of_nat (length table)) e).
    - rewrite length_resize. lia.
    - lia. }
  assert (Hsame : ∀ j, default [] (grown !! j) = default [] (table !! j)).
  { intros j. subst grown.
    destruct (Z.leb_spec (Z.of_nat (length table)) e); [|done].
    destruct (decide (j < Z.to_nat (e + 1))%nat).
    - destruct (decide (j < length table)%nat).
      + by rewrite lookup_resize by lia.
      + rewrite lookup_resize_new by lia. by rewrite lookup_ge_None_2 by lia.
    - rewrite (lookup_ge_None_2 (resize _ _ _))
        by (rewrite length_resize; lia).
      by rewrite lookup_ge_None_2 by lia. }
  split.
  - unfold listeners_of. destruct (Z.ltb_spec e 0); [lia|]. apply Hsame.
  - intros e'. unfold listeners_of at 1. case_bool_decide as Heq.
    + subst e'. destruct (Z.ltb_spec e 0); [lia|].
      by rewrite list_lookup_insert_eq by done.
    + unfold listeners_of. destruct (Z.ltb_spec e' 0); [done|].
      rewrite list_lookup_insert_ne by lia. apply Hsame.
Qed.

(** [add] appends [callbackRef] to the list of [e], leaves the other lists
    as they are, and runs the hook exactly when the list of [e] was
    empty. *)
Lemma add_hook e callbackRef (table : list (list Z)) :
  0 ≤ e →
  ∃ table',
    (∀ e', listeners_of e' table'
           = if bool_decide (e' = e)
             then listeners_of e table ++ [callbackRef]
             else listeners_of e' table)
    ∧ ∀ s : S,
        add e callbackRef (mkEvents table s)
        = if has_listeners e table
          then Done (mkEvents table' s)
          else s' ← onAddFirstListener e s; Done (mkEvents table' s').
Proof.
  intros He.
  destruct (listeners_of_pushed e callbackRef table He) as [Hsame Hl].
  eexists. split; [exact Hl|].
  intros s. unfold add. destruct (Z.ltb_spec e 0) as [|_]; [lia|].
  cbn [m_listeners self]. rewrite Hsame.
  unfold has_listeners.
  destruct (listeners_of e table) as [|x l] eqn:E.
  - simpl. reflexivity.
  - rewrite bool_decide_eq_false_2 by done. cbn [negb].
    destruct (Z.eqb_spec (Z.of_nat (length ((x :: l) ++ [callbackRef]))) 1) as [Hl1|_].
    + rewrite length_app in Hl1. simpl in Hl1. lia.
    + reflexivity.
Qed.

Lemma add_listeners e callbackRef (ev ev' : Events S) :
  add e callbackRef ev = Done ev' →
  0 ≤ e ∧
  ∀ e', listeners_of e' (m_listeners ev')
        = if bool_decide (e' = e)
          then listeners_of e (m_listeners ev) ++ [callbackRef]
          else listeners_of e' (m_listeners ev).
Proof.
  intros H.
  assert (He : 0 ≤ e).
  { unfold add in H. by destruct (Z.ltb_spec e 0). }
  split; [done|].
  destruct (add_hook e callbackRef (m_listeners ev) He) as (table' & Hl & Hadd).
  destruct ev as [table s]. cbn [m_listeners] in *.
  rewrite Hadd in H. destruct (has_listeners e table).
  - by inversion H.
  - bind_inv H. by inversion H.
Qed.

End AddFacts.

Section RemoveFacts.
Context {S : Type} `{!EventsImpl S}.

Lemma removed_and_empty callbackRef (listeners : list Z) :
  bool_decide (callbackRef ∈ listeners)
  && bool_decide (filter (λ x, x ≠ callbackRef) listeners = [])
  = bool_decide (listeners ≠ [])
    && bool_decide (filter (λ x, x ≠ callbackRef) listeners = []).
Proof.
  pose proof (erase_all_emptied callbackRef listeners) as H.
  by rewrite erase_all_filter in H.
Qed.

(** [remove] runs the hook once for each list it empties, in the order of
    the event types, and leaves the filtered table. *)
Lemma remove_from_hooks callbackRef table : ∀ i (s : S),
  remove_from callbackRef i table s
  = s' ← run_hooks onRemoveLastListener (emptied_by callbackRef i table) s;
    Done (map (filter (λ x, x ≠ callbackRef)) table, s').
Proof.
  induction table as [|l rest IH]; intros i s; [done|].
  cbn [remove_from emptied_by]. rewrite erase_all_filter, removed_and_empty.
  destruct (_ && _); cbn [app run_hooks].
  - destruct (onRemoveLastListener i s) as [s1|]; [|done]. simpl.
    rewrite IH. by destruct (run_hooks _ _ s1).
  - simpl. rewrite IH. by destruct (run_hooks _ _ s).
Qed.

Lemma remove_hooks callbackRef (ev : Events S) :
  remove callbackRef ev
  = s ← run_hooks onRemoveLastListener
          (emptied_by callbackRef 0 (m_listeners ev)) (self ev);
    Done (mkEvents (map (filter (λ x, x ≠ callbackRef)) (m_listeners ev)) s).
Proof.
  unfold remove. rewrite remove_from_hooks. by destruct (run_hooks _ _ _).
Qed.

End RemoveFacts.

Lemma listeners_of_cons e l (table : list (list Z)) :
  listeners_of e (l :: table)
  = if bool_decide (e = 0) then l else listeners_of (e - 1) table.
Proof.
  unfold listeners_of. case_bool_decide as H0.
  - by subst.
  - destruct (Z.ltb_spec e 0), (Z.ltb_spec (e - 1) 0); try lia; [done|].
    replace (Z.to_nat e) with (Datatypes.S (Z.to_nat (e - 1))) by lia. done.
Qed.

Lemma listeners_of_filtered callbackRef e (table : list (list Z)) :
  listeners_of e (map (filter (λ x, x ≠ callbackRef)) table)
  = filter (λ x, x ≠ callbackRef) (listeners_of e table).
Proof.
  unfold listeners_of. destruct (Z.ltb_spec e 0); [done|].
  rewrite list_lookup_fmap. by destruct (table !! Z.to_nat e).
Qed.

Lemma emptied_by_bound callbackRef table : ∀ i e,
  e ∈ emptied_by callbackRef i table → i ≤ e.
Proof.
  induction table as [|l rest IH]; intros i e; cbn [emptied_by].
  - by intros ?%not_elem_of_nil.
  - rewrite elem_of_app. intros [H|H].
    + destruct (_ && _); [|by apply not_elem_of_nil in H].
      apply list_elem_of_singleton in H. lia.
    + apply IH in H. lia.
Qed.

Lemma elem_of_emptied_by callbackRef table : ∀ i e,
  e ∈ emptied_by callbackRef i table
  ↔ i ≤ e
    ∧ listeners_of (e - i) table ≠ []
    ∧ filter (λ x, x ≠ callbackRef) (listeners_of (e - i) table) = [].
Proof.
  induction table as [|l rest IH]; intros i e; cbn [emptied_by].
  - split; [by intros ?%not_elem_of_nil|].
    intros (_ & Hne & _). exfalso. apply Hne. unfold listeners_of.
    by destruct (_ <? _).
  - rewrite elem_of_app, IH, listeners_of_cons.
    destruct (decide (e - i = 0)) as [H0|H0];
      [rewrite !(bool_decide_eq_true_2 _ H0)
      |rewrite !(bool_decide_eq_false_2 _ H0)].
    + assert (e = i) as -> by lia. split.
      * intros [H|H]; [|lia].
        destruct (bool_decide (l ≠ [])) eqn:E1; [|by apply not_elem_of_nil in H].
        destruct (bool_decide (filter _ l = [])) eqn:E2;
          [|by apply not_elem_of_nil in H].
        apply bool_decide_eq_true in E1, E2. done.
      * intros (_ & H1 & H2). left.
        rewrite (bool_decide_eq_true_2 _ H1), (bool_decide_eq_true_2 _ H2).
        simpl. left.
    + replace (e - (i + 1)) with (e - i - 1) by lia. split.
      * intros [H|H]; [|intuition lia].
        destruct (_ && _); [|by apply not_elem_of_nil in H].
        apply list_elem_of_singleton in H. lia.
      * intros (Hi & H1 & H2). right. split; [lia|done].
Qed.

Lemma NoDup_emptied_by callbackRef table : ∀ i,
  NoDup (emptied_by callbackRef i table).
Proof.
  induction table as [|l rest IH]; intros i; cbn [emptied_by].
  - constructor.
  - destruct (_ && _); [|apply IH]. simpl. constructor; [|apply IH].
    intros H%emptied_by_bound. lia.
Qed.

(** ** What the recording class sees *)

Lemma calls_of_app c (l1 l2 : list hook_call) :
  calls_of c (l1 ++ l2) = (calls_of c l1 + calls_of c l2)%nat.
Proof. unfold calls_of. by rewrite filter_app, length_app. Qed.

Lemma calls_of_RemoveLast e (types : list Z) :
  NoDup types →
  calls_of (RemoveLast e) (RemoveLast <$> types)
  = if bool_decide (e ∈ types) then 1%nat else 0%nat.
Proof.
  unfold calls_of. induction types as [|x l IH]; intros Hnd.
  - by rewrite bool_decide_eq_false_2 by apply not_elem_of_nil.
  - apply NoDup_cons in Hnd as [Hx Hl]. rewrite fmap_cons.
    destruct (decide (x = e)) as [->|Hne].
    + rewrite filter_cons_True by done. cbn [length]. rewrite (IH Hl).
      rewrite (bool_decide_eq_false_2 _ Hx).
      by rewrite bool_decide_eq_true_2 by left.
    + rewrite filter_cons_False by congruence. rewrite (IH Hl).
      destruct (decide (e ∈ l)) as [Hin|Hin].
      * rewrite (bool_decide_eq_true_2 _ Hin).
        by rewrite bool_decide_eq_true_2 by (by right).
      * rewrite (bool_decide_eq_false_2 _ Hin).
        rewrite bool_decide_eq_false_2; [done|].
        rewrite elem_of_cons. intros [?|?]; congruence.
Qed.

Lemma calls_of_AddFirst_removals e (types : list Z) :
  calls_of (AddFirst e) (RemoveLast <$> types) = 0%nat.
Proof.
  unfold calls_of. induction types as [|x l IH]; [done|].
  rewrite fmap_cons, filter_cons_False by done. apply IH.
Qed.

Lemma run_hooks_recorded (types : list Z) : ∀ log : list hook_call,
  run_hooks onRemoveLastListener types log
  = Done (log ++ (RemoveLast <$> types)).
Proof.
  induction types as [|e rest IH]; intros log; cbn [run_hooks].
  - by rewrite app_nil_r.
  - simpl. rewrite IH. by rewrite <- app_assoc.
Qed.

Lemma remove_recorded callbackRef table (log : list hook_call) :
  remove callbackRef (mkEvents table log)
  = Done (mkEvents (map (filter (λ x, x ≠ callbackRef)) table)
                   (log ++ (RemoveLast <$> emptied_by callbackRef 0 table))).
Proof. rewrite remove_hooks. simpl. by rewrite run_hooks_recorded. Qed.

Lemma add_recorded e callbackRef table :
  0 ≤ e →
  ∃ table',
    (∀ log : list hook_call,
       add e callbackRef (mkEvents table log)
       = Done (mkEvents table'
                 (log ++ if has_listeners e table then [] else [AddFirst e])))
    ∧ ∀ e', listeners_of e' table'
            = if bool_decide (e' = e)
              then listeners_of e table ++ [callbackRef]
              else listeners_of e' table.
Proof.
  intros He.
  destruct (add_hook (S := list hook_call) e callbackRef table He)
    as (table' & Hl & Hadd).
  exists table'. split; [|exact Hl].
  intros log. rewrite Hadd. destruct (has_listeners e table); simpl.
  - by rewrite app_nil_r.
  - done.
Qed.

Lemma has_listeners_filtered_false callbackRef e table :
  has_listeners e table = false →
  has_listeners e (map (filter (λ x, x ≠ callbackRef)) table) = false.
Proof.
  unfold has_listeners. rewrite !negb_false_iff, !bool_decide_eq_true.
  rewrite listeners_of_filtered. by intros ->.
Qed.

(** One call: the firings it adds to the log, whatever the log holds. *)
Lemma step_recorded o table :
  ∃ fired,
    (∀ log : list hook_call,
       step o (mkEvents table log)
       = Done (mkEvents (table_after o table) (log ++ fired)))
    ∧ ∀ e,
        calls_of (AddFirst e) fired
        = (if negb (has_listeners e table)
              && has_listeners e (table_after o table)
           then 1%nat else 0%nat)
        ∧ calls_of (RemoveLast e) fired
          = (if has_listeners e table
                && negb (has_listeners e (table_after o table))
             then 1%nat else 0%nat).
Proof.
  destruct o as [e0 callbackRef|callbackRef]; unfold table_after; cbn [step].
  - destruct (add_recorded (Z.of_nat e0) callbackRef table ltac:(lia))
      as (table' & Hadd & Hl).
    rewrite (Hadd []). cbn [m_listeners].
    exists (if has_listeners (Z.of_nat e0) table then []
            else [AddFirst (Z.of_nat e0)]).
    split; [done|]. intros e.
    assert (Hafter : has_listeners (Z.of_nat e0) table' = true).
    { unfold has_listeners. rewrite Hl.
      rewrite (bool_decide_eq_true_2 (Z.of_nat e0 = Z.of_nat e0)) by done.
      apply negb_true_iff, bool_decide_eq_false.
      by destruct (listeners_of (Z.of_nat e0) table). }
    destruct (decide (e = Z.of_nat e0)) as [->|Hne].
    + rewrite Hafter. destruct (has_listeners (Z.of_nat e0) table); simpl.
      * done.
      * unfold calls_of. rewrite filter_cons_True by done.
        by rewrite filter_cons_False by done.
    + assert (has_listeners e table' = has_listeners e table) as ->.
      { unfold has_listeners. rewrite Hl.
        by rewrite (bool_decide_eq_false_2 (e = Z.of_nat e0)). }
      destruct (has_listeners e table), (has_listeners (Z.of_nat e0) table);
        simpl; unfold calls_of; try done.
      * rewrite filter_cons_False by congruence. done.
      * rewrite filter_cons_False by congruence. split; [done|].
        by rewrite filter_cons_False by done.
  - rewrite remove_recorded. cbn [m_listeners].
    exists (RemoveLast <$> emptied_by callbackRef 0 table).
    split; [intros log; apply remove_recorded|]. intros e.
    rewrite calls_of_AddFirst_removals,
      (calls_of_RemoveLast _ _ (NoDup_emptied_by _ _ _)).
    split.
    + destruct (has_listeners e table) eqn:E; simpl; [done|].
      by rewrite has_listeners_filtered_false.
    + apply eq_sym.
      destruct (decide (e ∈ emptied_by callbackRef 0 table)) as [Hin|Hin].
      * rewrite (bool_decide_eq_true_2 _ Hin).
        apply elem_of_emptied_by in Hin as (_ & H1 & H2).
        rewrite Z.sub_0_r in H1, H2. unfold has_listeners.
        rewrite listeners_of_filtered, H2.
        by rewrite (bool_decide_eq_false_2 _ H1).
      * rewrite (bool_decide_eq_false_2 _ Hin).
        destruct (has_listeners e table) eqn:E1; [|done].
        destruct (has_listeners e (map _ table)) eqn:E2; [done|].
        exfalso. apply Hin, elem_of_emptied_by.
        unfold has_listeners in E1, E2. rewrite Z.sub_0_r.
        apply negb_true_iff, bool_decide_eq_false in E1.
        apply negb_false_iff, bool_decide_eq_true in E2.
        rewrite listeners_of_filtered in E2.
        split; [|done].
        destruct (Z.ltb_spec e 0); [|lia].
        exfalso. apply E1. unfold listeners_of.
        by destruct (Z.ltb_spec e 0); [|lia].
Qed.

Lemma run_recorded ops : ∀ table (log : list hook_call),
  ∃ ev',
    run ops (mkEvents table log) = Done ev'
    ∧ ∀ e,
        calls_of (AddFirst e) (self ev')
        = (calls_of (AddFirst e) log + rises e table ops)%nat
        ∧ calls_of (RemoveLast e) (self ev')
          = (calls_of (RemoveLast e) log + falls e table ops)%nat.
Proof.
  induction ops as [|o rest IH]; intros table log.
  - exists (mkEvents table log). split; [done|]. intros e. simpl. lia.
  - destruct (step_recorded o table) as (fired & Hstep & Hfired).
    destruct (IH (table_after o table) (log ++ fired)) as (ev' & Hrun & Hev).
    exists ev'. split.
    + cbn [run]. rewrite Hstep. simpl. exact Hrun.
    + intros e. destruct (Hev e) as [H1 H2], (Hfired e) as [F1 F2].
      rewrite H1, H2, !calls_of_app, F1, F2. cbn [rises falls]. lia.
Qed.

(** C1.  For every sequence of [add] and [remove] calls on a table and every
    event type [e], [onAddFirstListener e] is called exactly once for each
    call that takes the list of [e] from empty to non-empty, and
    [onRemoveLastListener e] exactly once for each call that takes it from
    non-empty to empty.  A call that makes no such transition (an [add] to
    a list that has listeners, a [remove] that leaves a listener or finds
    none) therefore calls neither hook for [e]. *)
Theorem hooks_fire_once_per_transition (ops : list op)
    (table : list (list Z)) :
  ∃ ev' : Events (list hook_call),
    run ops (mkEvents table []) = Done ev'
    ∧ ∀ e,
        calls_of (AddFirst e) (self ev') = rises e table ops
        ∧ calls_of (RemoveLast e) (self ev') = falls e table ops.
Proof.
  destruct (run_recorded ops table []) as (ev' & Hrun & Hev).
  exists ev'. split; [done|]. intros e. destruct (Hev e) as [H1 H2].
  by rewrite H1, H2.
Qed.

(** A run: two listeners of event 0, of which the first one also listens
    to event 2; removing it empties the list of 2, removing the other one
    empties the list of 0, and removing a stranger does nothing. *)
Example run_sample :
  run [OpAdd 0 1; OpAdd 0 2; OpAdd 2 1; OpRemove 1; OpRemove 2; OpRemove 7]
      (mkEvents [] ([] : list hook_call))
  = Done (mkEvents [[]; []; []]
            [AddFirst 0; AddFirst 2; RemoveLast 2; RemoveLast 0]).
Proof. by vm_compute. Qed.

(** C3.  [remove callbackRef] erases every occurrence of [callbackRef] from
    the list of every event type and keeps the other listeners in order, so
    that [hasListener callbackRef] is false afterwards; and it calls
    [onRemoveLastListener] once, in the order of the event types, for
    exactly those event types whose list had listeners before and has none
    after.  The recording class shows the calls that are made. *)
Theorem remove_erases_every_occurrence {S : Type} `{!EventsImpl S}
    (callbackRef : Z) (ev : Events S) :
  let table' := map (filter (λ x, x ≠ callbackRef)) (m_listeners ev) in
  let emptied := emptied_by callbackRef 0 (m_listeners ev) in
  remove callbackRef ev
  = (s ← run_hooks onRemoveLastListener emptied (self ev);
     Done (mkEvents table' s))
  ∧ (∀ log : list hook_call,
       remove callbackRef (mkEvents (m_listeners ev) log)
       = Done (mkEvents table' (log ++ (RemoveLast <$> emptied))))
  ∧ (∀ s : S, hasListener callbackRef (mkEvents table' s) = false)
  ∧ NoDup emptied
  ∧ ∀ e, e ∈ emptied
         ↔ listeners_of e (m_listeners ev) ≠ [] ∧ listeners_of e table' = [].
Proof.
  intros table' emptied. split; [apply remove_hooks|].
  split; [intros log; apply remove_recorded|].
  split; [intros s; apply hasListener_filtered|].
  split; [apply NoDup_emptied_by|].
  intros e. subst emptied table'.
  rewrite elem_of_emptied_by, Z.sub_0_r, listeners_of_filtered. split.
  - by intros (_ & ? & ?).
  - intros [H1 H2]. split; [|done].
    destruct (Z.ltb_spec e 0); [|lia].
    exfalso. apply H1. unfold listeners_of.
    by destruct (Z.ltb_spec e 0); [|lia].
Qed.

(** ** Event names *)

Lemma first_byte_c_str s : first_byte s = 0 ↔ c_str s = EmptyString.
Proof.
  destruct s as [|c rest]; simpl; [done|].
  destruct (Z.eqb_spec (Z.of_N (Ascii.N_of_ascii c)) 0); split; done.
Qed.

Lemma ascii_code_inj c1 c2 :
  Z.of_N (Ascii.N_of_ascii c1) = Z.of_N (Ascii.N_of_ascii c2) → c1 = c2.
Proof.
  intros H%N2Z.inj.
  by rewrite <- (Ascii.ascii_N_embedding c1), <- (Ascii.ascii_N_embedding c2), H.
Qed.

(** [strcmp] returns 0 exactly for equal C strings. *)
Lemma strcmp_0 s1 : ∀ s2, strcmp s1 s2 = 0 ↔ c_str s1 = c_str s2.
Proof.
  induction s1 as [|c rest IH]; intros s2; cbn [strcmp c_str].
  - split; intros H.
    + symmetry. apply first_byte_c_str. lia.
    + symmetry in H. apply first_byte_c_str in H. lia.
  - destruct (Z.eqb_spec (Z.of_N (Ascii.N_of_ascii c)) (first_byte s2)) as [Heq|Hne].
    + destruct (Z.eqb_spec (Z.of_N (Ascii.N_of_ascii c)) 0) as [H0|H0].
      * rewrite H0 in Heq. symmetry in Heq. apply first_byte_c_str in Heq.
        by rewrite Heq.
      * destruct s2 as [|c2 rest2]; simpl in Heq; [lia|].
        apply ascii_code_inj in Heq as <-. cbn [string_tail c_str].
        destruct (Z.eqb_spec (Z.of_N (Ascii.N_of_ascii c)) 0); [lia|].
        rewrite IH. split; [by intros ->|by intros [=]].
    + split; [lia|]. intros H. exfalso.
      destruct (Z.eqb_spec (Z.of_N (Ascii.N_of_ascii c)) 0) as [H0|H0].
      * symmetry in H. apply first_byte_c_str in H. lia.
      * destruct s2 as [|c2 rest2]; cbn [c_str] in H; [done|].
        destruct (Z.eqb_spec (Z.of_N (Ascii.N_of_ascii c2)) 0); [done|].
        injection H as -> _. by simpl in Hne.
Qed.

Lemma strcmp_eqb s1 s2 :
  (strcmp s1 s2 =? 0) = bool_decide (c_str s1 = c_str s2).
Proof.
  destruct (Z.eqb_spec (strcmp s1 s2) 0) as [H|H]; symmetry.
  - by apply bool_decide_eq_true, strcmp_0.
  - apply bool_decide_eq_false. by rewrite <- strcmp_0.
Qed.

(** C9, as the code has it.  The name is matched exactly, letter case
    included (and, as for every C string, up to its first NUL): the
    application's events are ["sitechange"], ["fgcolorchange"] and
    ["bgcolorchange"], a sprite's are ["change"] and ["filenamechange"], and
    every other name gives [Unknown], whatever it would be in lower case. *)
Theorem eventType_matches_exactly (eventName : string) :
  AppEvents.eventType eventName
  = (if bool_decide (c_str eventName = "sitechange")
     then AppEvents.SiteChange
     else if bool_decide (c_str eventName = "fgcolorchange")
     then AppEvents.FgColorChange
     else if bool_decide (c_str eventName = "bgcolorchange")
     then AppEvents.BgColorChange
     else AppEvents.Unknown)
  ∧ SpriteEvents.eventType eventName
    = (if bool_decide (c_str eventName = "change")
       then SpriteEvents.Change
       else if bool_decide (c_str eventName = "filenamechange")
       then SpriteEvents.FilenameChange
       else SpriteEvents.Unknown).
Proof.
  unfold AppEvents.eventType, SpriteEvents.eventType.
  by rewrite !strcmp_eqb.
Qed.

(** C9, as the specification states it, fails: ["SiteChange"] and
    ["sitechange"] differ only in letter case, and so do ["Change"] and
    ["change"], but only the lower-case names are recognised. *)
Lemma eventType_is_case_sensitive :
  lower "SiteChange" = lower "sitechange"
  ∧ AppEvents.eventType "sitechange" = AppEvents.SiteChange
  ∧ AppEvents.eventType "SiteChange" = AppEvents.Unknown
  ∧ lower "Change" = lower "change"
  ∧ SpriteEvents.eventType "change" = SpriteEvents.Change
  ∧ SpriteEvents.eventType "Change" = SpriteEvents.Unknown.
Proof. by vm_compute. Qed.

(** ** [events:on] *)

Section OnFacts.
Context {S : Type} `{!EventsImpl S}.
Variable free_ref : gmap Z lua_value → Z.

Lemma luaL_ref_function callback (L : lua_State) :
  lua_isfunction callback = true →
  luaL_ref free_ref callback L
  = (free_ref (registry L),
     mkLua (<[free_ref (registry L) := callback]> (registry L))).
Proof. by destruct callback. Qed.

(** C7.  [on(eventName, callback)] with a name [lua_tostring] accepts.  An
    unrecognised name raises "invalid event name to listen" and a second
    argument that is no function raises "second argument must be a
    function"; both leave the Lua registry and the listener table as they
    were.  Otherwise the callback is stored in the registry under the
    reference [luaL_ref] returns, that reference is appended to the list of
    the event (the other lists are unchanged), and it is the value
    returned; [onAddFirstListener] runs on the way exactly when the list
    had no listener. *)
Theorem Events_on_cases (eventName callback : lua_value) (name : string)
    (w : Script S) :
  lua_tostring eventName = Some name →
  let type := eventType name in
  let ref := free_ref (registry (lua w)) in
  let L' := mkLua (<[ref := callback]> (registry (lua w))) in
  (type < 0 →
     Events_on free_ref eventName callback w
     = Done (Raises "invalid event name to listen", w))
  ∧ (0 ≤ type → lua_isfunction callback = false →
       Events_on free_ref eventName callback w
       = Done (Raises "second argument must be a function", w))
  ∧ (0 ≤ type → lua_isfunction callback = true →
       lua_rawgeti L' ref = callback
       ∧ ∃ table',
           (∀ e, listeners_of e table'
                 = if bool_decide (e = type)
                   then listeners_of type (m_listeners (evs w)) ++ [ref]
                   else listeners_of e (m_listeners (evs w)))
           ∧ Events_on free_ref eventName callback w
             = if has_listeners type (m_listeners (evs w))
               then Done (Returns [LuaInteger ref],
                          mkScript L' (mkEvents table' (self (evs w))))
               else s ← onAddFirstListener type (self (evs w));
                    Done (Returns [LuaInteger ref],
                          mkScript L' (mkEvents table' s))).
Proof.
  intros Hname type ref L'. unfold Events_on. rewrite Hname. fold type.
  split; [|split].
  - intros Hneg. by destruct (Z.ltb_spec type 0); [|lia].
  - intros Hpos Hfn. destruct (Z.ltb_spec type 0); [lia|]. by rewrite Hfn.
  - intros Hpos Hfn. destruct (Z.ltb_spec type 0); [lia|].
    rewrite Hfn. cbn [negb]. split.
    { unfold lua_rawgeti, L'. cbn [registry]. by rewrite lookup_insert_eq. }
    destruct (add_hook type ref (m_listeners (evs w)) Hpos)
      as (table' & Hl & Hadd).
    exists table'. split; [exact Hl|].
    rewrite (luaL_ref_function _ _ Hfn). fold ref L'.
    destruct (evs w) as [table s]. cbn [m_listeners self] in *.
    rewrite Hadd. destruct (has_listeners type table); [done|].
    by destruct (onAddFirstListener type s).
Qed.

(** C10, as the code has it.  When the event name is neither a string nor
    a number, [lua_tostring] gives [NULL] and [on] returns no value, raises
    no error and changes nothing. *)
Theorem Events_on_without_name (eventName callback : lua_value)
    (w : Script S) :
  (∀ s, eventName ≠ LuaString s) →
  (∀ i, eventName ≠ LuaInteger i) →
  Events_on free_ref eventName callback w = Done (Returns [], w).
Proof.
  intros Hs Hi. unfold Events_on.
  destruct eventName; try done.
  - by destruct (Hi i).
  - by destruct (Hs s).
Qed.

End OnFacts.

(** The three cases of C7 on the application's events. *)
Lemma Events_on_cases_witness :
  Events_on next_ref (LuaString "nosuchevent") (LuaFunction 7) fresh_app
  = Done (Raises "invalid event name to listen", fresh_app)
  ∧ Events_on next_ref (LuaString "sitechange") (LuaTable 3) fresh_app
    = Done (Raises "second argument must be a function", fresh_app)
  ∧ ∃ table',
      listeners_of AppEvents.SiteChange table' = [1]
      ∧ Events_on next_ref (LuaString "sitechange") (LuaFunction 7) fresh_app
        = Done (Returns [LuaInteger 1],
                mkScript (mkLua {[ 1 := LuaFunction 7 ]})
                         (mkEvents table' (AppEvents.mk true false false))).
Proof.
  split; [|split].
  - apply (Events_on_cases next_ref (LuaString "nosuchevent") (LuaFunction 7)
             "nosuchevent" fresh_app eq_refl).
    by vm_compute.
  - apply (Events_on_cases next_ref (LuaString "sitechange") (LuaTable 3)
             "sitechange" fresh_app eq_refl); by vm_compute.
  - destruct (Events_on_cases next_ref (LuaString "sitechange") (LuaFunction 7)
                "sitechange" fresh_app eq_refl) as (_ & _ & H).
    destruct H as (_ & table' & Hl & Hon); [by vm_compute|done|].
    exists table'. split; [apply (Hl AppEvents.SiteChange)|exact Hon].
Defined.

(** [on(nil, f)] returns nothing and changes nothing. *)
Lemma Events_on_without_name_witness :
  Events_on next_ref LuaNil (LuaFunction 7) fresh_app
  = Done (Returns [], fresh_app).
Proof.
  apply (Events_on_without_name next_ref LuaNil (LuaFunction 7) fresh_app);
    intros ?; discriminate.
Defined.

(** C10, as it is stated, fails for a number: [5] is not a string, but
    [lua_tostring] converts it to ["5"], which is no event name, and the
    call raises the error. *)
Lemma Events_on_number_raises :
  Events_on next_ref (LuaInteger 5) (LuaFunction 7) fresh_app
  = Done (Raises "invalid event name to listen", fresh_app).
Proof. by vm_compute. Qed.

(** ** [events:off] *)

Section OffFacts.
Context {S : Type} `{!EventsImpl S}.

(** What the loop over the registry finds. *)
Lemma find_callback_found fn (w : Script S) :
  find_callback fn w ≠ LUA_REFNIL →
  ∃ key, registry (lua w) !! key = Some fn
         ∧ lua_isfunction fn = true
         ∧ find_callback fn w = to_int key
         ∧ hasListener (to_int key) (evs w) = true.
Proof.
  unfold find_callback.
  destruct (find _ _) as [[key value]|] eqn:E; [|done]. intros _.
  apply find_some in E as [Hin Hf].
  apply list_elem_of_In, elem_of_map_to_list in Hin.
  apply andb_true_iff in Hf as [Hf Hhas].
  apply andb_true_iff in Hf as [Hfn Heq].
  apply bool_decide_eq_true in Heq. subst value. by exists key.
Qed.

Lemma find_callback_none fn (w : Script S) :
  (∀ key, registry (lua w) !! key = Some fn →
          hasListener (to_int key) (evs w) = false) →
  find_callback fn w = LUA_REFNIL.
Proof.
  intros Hnone. unfold find_callback.
  destruct (find _ _) as [[key value]|] eqn:E; [|done].
  apply find_some in E as [Hin Hf].
  apply list_elem_of_In, elem_of_map_to_list in Hin.
  apply andb_true_iff in Hf as [Hf Hhas].
  apply andb_true_iff in Hf as [Hfn Heq].
  apply bool_decide_eq_true in Heq. subst value.
  by rewrite (Hnone key Hin) in Hhas.
Qed.

Lemma luaL_unref_gone ref (L : lua_State) :
  0 ≤ ref → registry (luaL_unref ref L) !! ref = None.
Proof.
  intros Href. unfold luaL_unref. destruct (Z.leb_spec 0 ref); [|lia].
  apply lookup_delete_eq.
Qed.

(** C8.  [off(x)].  When [x] is neither an integer nor a function the call
    raises "first argument must be a function or a EventListener".  When
    [x] is an integer that is no listener of this table, or a function that
    the registry holds under no listener of this table, the call returns
    and leaves the table and the registry as they were.  When [x] names a
    listener [ref] of this table (the integer itself, or the registry key
    found for the function), [remove ref] runs first and
    [luaL_unref ref] after it: the table no longer has the listener and the
    registry no longer holds the reference. *)
Theorem Events_off_cases (x : lua_value) (w : Script S) :
  (lua_isinteger x = false → lua_isfunction x = false →
     Events_off x w
     = Done (Raises "first argument must be a function or a EventListener", w))
  ∧ (∀ i, x = LuaInteger i → hasListener (to_int i) (evs w) = false →
       Events_off x w = Done (Returns [], w))
  ∧ (lua_isfunction x = true →
       (∀ key, registry (lua w) !! key = Some x →
               hasListener (to_int key) (evs w) = false) →
       Events_off x w = Done (Returns [], w))
  ∧ (∀ ref,
       (∃ i, x = LuaInteger i ∧ to_int i = ref)
       ∨ (lua_isfunction x = true ∧ find_callback x w = ref) →
       ref ≠ LUA_REFNIL →
       hasListener ref (evs w) = true →
       Events_off x w
       = (evs' ← remove ref (evs w);
          Done (Returns [], mkScript (luaL_unref ref (lua w)) evs'))
       ∧ (∀ evs', remove ref (evs w) = Done evs' →
            m_listeners evs'
            = map (filter (λ r, r ≠ ref)) (m_listeners (evs w))
            ∧ hasListener ref evs' = false)
       ∧ (0 ≤ ref → registry (luaL_unref ref (lua w)) !! ref = None)).
Proof.
  unfold Events_off. split; [|split; [|split]].
  - by intros -> ->.
  - intros i -> Hnot. cbn [lua_isinteger lua_tointeger].
    by rewrite Hnot, andb_false_r.
  - intros Hfn Hnone. rewrite Hfn.
    destruct (lua_isinteger x) eqn:Hint; [by destruct x|].
    by rewrite (find_callback_none x w Hnone).
  - intros ref Hx Hnil Hhas.
    assert ((if lua_isinteger x then to_int (lua_tointeger x)
             else find_callback x w) = ref) as Href.
    { destruct Hx as [(i & -> & Hi)|[Hfn Hfind]]; [done|]. by destruct x. }
    split; [|split].
    + destruct Hx as [(i & -> & Hi)|[Hfn Hfind]].
      * cbn [lua_isinteger lua_tointeger]. rewrite Hi, Hhas.
        by destruct (Z.eqb_spec ref LUA_REFNIL).
      * destruct (lua_isinteger x) eqn:Hint; [by destruct x|].
        rewrite Hfn, Hfind, Hhas.
        by destruct (Z.eqb_spec ref LUA_REFNIL).
    + intros evs' Hrem. split.
      * by apply remove_table.
      * by eapply remove_hasListener.
    + apply luaL_unref_gone.
Qed.

End OffFacts.

(** The cases of C8 on the application's events with one listener. *)
Lemma Events_off_cases_witness :
  Events_off LuaNil listening_app
  = Done (Raises "first argument must be a function or a EventListener",
          listening_app)
  ∧ Events_off (LuaInteger 9) listening_app = Done (Returns [], listening_app)
  ∧ Events_off (LuaFunction 8) listening_app = Done (Returns [], listening_app)
  ∧ Events_off (LuaInteger 1) listening_app
    = Done (Returns [],
            mkScript (mkLua ∅) (mkEvents [[]] (AppEvents.mk false false false)))
  ∧ Events_off (LuaFunction 7) listening_app
    = Done (Returns [],
            mkScript (mkLua ∅) (mkEvents [[]] (AppEvents.mk false false false))).
Proof.
  split; [|split; [|split; [|split]]].
  - by apply (Events_off_cases LuaNil listening_app).
  - by apply (Events_off_cases (LuaInteger 9) listening_app) with 9.
  - apply (Events_off_cases (LuaFunction 8) listening_app); [done|].
    intros key Hkey.
    change (({[ 1 := LuaFunction 7 ]} : gmap Z lua_value) !! key
            = Some (LuaFunction 8)) in Hkey.
    apply lookup_singleton_Some in Hkey as [_ [=]].
  - destruct (Events_off_cases (LuaInteger 1) listening_app)
      as (_ & _ & _ & H).
    destruct (H 1) as (Hoff & _ & _);
      [left; by exists 1|done|done|].
    rewrite Hoff. by vm_compute.
  - destruct (Events_off_cases (LuaFunction 7) listening_app)
      as (_ & _ & _ & H).
    destruct (H 1) as (Hoff & _ & _);
      [right; by vm_compute|done|done|].
    rewrite Hoff. by vm_compute.
Defined.

(** ** [Events::call] *)

Lemma called_Called r st events :
  called (Called r st :: events) = r :: called events.
Proof. done. Qed.
Lemma called_Printed s events : called (Printed s :: events) = called events.
Proof. done. Qed.
Lemma statuses_Called r st events :
  statuses (Called r st :: events) = st :: statuses events.
Proof. done. Qed.
Lemma statuses_Printed s events :
  statuses (Printed s :: events) = statuses events.
Proof. done. Qed.
Lemma printed_Called r st events :
  printed (Called r st :: events) = printed events.
Proof. done. Qed.
Lemma printed_Printed s events :
  printed (Printed s :: events) = s :: printed events.
Proof. done. Qed.

Create Rewrite HintDb trace.
#[global] Hint Rewrite called_Called called_Printed statuses_Called
  statuses_Printed printed_Called printed_Printed : trace.

Section CallFacts.
Context {S : Type}.
Variable lua_pcall : lua_value → Script S → pcall_result * Script S.

(** The loop when the callbacks leave the table alone. *)
Lemma call_loop_quiet eventType (Hkeep : keeps_table lua_pcall) :
  ∀ pending w,
    ∃ events w',
      call_loop lua_pcall eventType pending w = Done (events, w')
      ∧ called events `prefix_of` pending
      ∧ (existsb throws (statuses events) = false → called events = pending)
      ∧ printed events = omap message_of (statuses events)
      ∧ ∀ i st, statuses events !! i = Some st → throws st = true →
                Datatypes.S i = length (statuses events).
Proof.
  induction pending as [|ref rest IH]; intros w; cbn [call_loop].
  - exists [], w. repeat split; done.
  - pose proof (Hkeep (lua_rawgeti (lua w) ref) w) as Hk.
    destruct (lua_pcall (lua_rawgeti (lua w) ref) w) as [status w1].
    cbn [snd] in Hk.
    destruct (IH w1) as (events & w' & Hloop & Hpre & Hall & Hpr & Hlast).
    destruct status as [|err|what].
    + rewrite Hk, bool_decide_eq_true_2 by done. rewrite Hloop.
      eexists _, w'. split; [reflexivity|]. cbn [app].
      autorewrite with trace. repeat split.
      * by apply prefix_cons.
      * cbn [existsb throws orb]. intros H. by rewrite Hall.
      * exact Hpr.
      * intros [|i] st Hi Hth; cbn in Hi.
        -- by inversion Hi; subst.
        -- cbn [length]. f_equal. by eapply Hlast.
    + rewrite Hk, bool_decide_eq_true_2 by done. rewrite Hloop.
      eexists _, w'. split; [reflexivity|].
      destruct (lua_tostring err) as [s|] eqn:Hs; cbn [app];
        autorewrite with trace;
        (repeat split;
         [by apply prefix_cons
         |cbn [existsb throws orb]; intros H; by rewrite Hall
         |simpl; rewrite Hs, Hpr; reflexivity
         |intros [|i] st Hi Hth; cbn in Hi;
          [by inversion Hi; subst|cbn [length]; f_equal; by eapply Hlast]]).
    + eexists _, w1. split; [reflexivity|].
      autorewrite with trace. repeat split; try done.
      * apply prefix_cons, prefix_nil.
      * by intros [|i] st Hi Hth; cbn in Hi.
Qed.

(** A callback that returns after changing the list being iterated leaves
    the loop with invalid iterators. *)
Lemma call_loop_invalidated eventType ref rest (w w' : Script S) status :
  lua_pcall (lua_rawgeti (lua w) ref) w = (status, w') →
  throws status = false →
  listeners_of eventType (m_listeners (evs w'))
  ≠ listeners_of eventType (m_listeners (evs w)) →
  call_loop lua_pcall eventType (ref :: rest) w = Undefined InvalidIterator.
Proof.
  intros Hcall Hthrows Hchanged. cbn [call_loop]. rewrite Hcall.
  rewrite (bool_decide_eq_false_2 _ Hchanged). by destruct status.
Qed.

(** C2, as the code has it.  When the callbacks leave the listener table
    alone, [call] returns to its caller and has called the listeners of the
    event in registration order, up to the first one, if any, from which a
    C++ exception escaped: only the last call can have thrown, and when
    none has every listener was called.  Each status prints what
    [message_of] gives: after a Lua error the error value if it is a string
    or a number (then the loop goes on with the next listener), after an
    exception its [what()] (then the loop has ended), nothing otherwise. *)
Theorem call_isolates_lua_errors (eventType : Z) (w : Script S) :
  keeps_table lua_pcall →
  ∃ events w',
    call lua_pcall eventType w = Done (events, w')
    ∧ called events `prefix_of` listeners_of eventType (m_listeners (evs w))
    ∧ (existsb throws (statuses events) = false →
       called events = listeners_of eventType (m_listeners (evs w)))
    ∧ printed events = omap message_of (statuses events)
    ∧ ∀ i st, statuses events !! i = Some st → throws st = true →
              Datatypes.S i = length (statuses events).
Proof.
  intros Hkeep. unfold call.
  destruct (_ || _) eqn:Hrange; [|by apply call_loop_quiet].
  exists [], w. repeat split; try done.
  - apply prefix_nil.
  - intros _. unfold listeners_of.
    destruct (Z.ltb_spec eventType 0) as [|Hpos]; [done|].
    cbn [orb] in Hrange. apply Z.leb_le in Hrange.
    by rewrite lookup_ge_None_2 by lia.
Qed.

End CallFacts.

(** Two Lua errors, one of them with a message, and a third listener that
    is called all the same. *)
Lemma call_isolates_lua_errors_witness :
  keeps_table failing_pcall
  ∧ ∃ events w',
      call failing_pcall AppEvents.SiteChange lua_errors_only
      = Done (events, w')
      ∧ called events = [1; 2; 3]
      ∧ printed events = ["bad"%string].
Proof.
  assert (Hkeep : keeps_table failing_pcall).
  { intros fn w. unfold failing_pcall.
    repeat (match goal with |- context [match ?x with _ => _ end] =>
              destruct x end; try reflexivity). }
  split; [exact Hkeep|].
  destruct (call_isolates_lua_errors failing_pcall AppEvents.SiteChange
              lua_errors_only Hkeep)
    as (events & w' & Hcall & _ & Hall & Hpr & _).
  exists events, w'. split; [exact Hcall|].
  assert (Hev : statuses events
                = [PcallError (LuaTable 0); PcallError (LuaString "bad");
                   PcallOk]).
  { vm_compute in Hcall. by inversion Hcall. }
  rewrite Hpr, Hev. split; [|reflexivity].
  rewrite Hall; [reflexivity|]. by rewrite Hev.
Defined.

(** C2, as it is stated, fails.  Listener 1 fails with an error value that
    is no string: nothing is printed for it.  An exception escapes from
    listener 2: its message is printed, and listener 3, registered for the
    same event, is not called. *)
Lemma call_stops_at_exception :
  ∃ events w',
    call failing_pcall AppEvents.SiteChange three_listeners = Done (events, w')
    ∧ listeners_of AppEvents.SiteChange (m_listeners (evs three_listeners))
      = [1; 2; 3]
    ∧ called events = [1; 2]
    ∧ statuses events = [PcallError (LuaTable 0); PcallThrows "boom"]
    ∧ printed events = ["boom"%string].
Proof. eexists _, _. split; [by vm_compute|]. by vm_compute. Qed.

(** C5, on the code.  Listener 1 of "sitechange" unregisters itself while
    it is called: [remove] erases it from the vector [call] iterates over,
    and the loop goes on with iterators that are no longer valid.  The same
    happens when a listener registers another one for the same event. *)
Theorem call_with_reentrant_callback :
  m_listeners (evs (reentrant_pcall (LuaFunction 1) three_listeners).2)
  = [[2; 3]]
  ∧ call reentrant_pcall AppEvents.SiteChange three_listeners
    = Undefined InvalidIterator
  ∧ m_listeners (evs (reentrant_pcall (LuaFunction 2) two_listeners).2)
    = [[2; 3; 4]]
  ∧ call reentrant_pcall AppEvents.SiteChange two_listeners
    = Undefined InvalidIterator.
Proof. by vm_compute. Qed.

(** ** A [SpriteEvents] whose document is gone *)

(** The hook that leaves the undo history does not test the document. *)
Lemma onRemoveLastListener_null this (h : Host) :
  SpriteEvents.doc this h = None →
  SpriteEvents.m_observingUndo this = true →
  SpriteEvents.onRemoveLastListener SpriteEvents.Change (this, h)
  = Undefined NullPointer.
Proof.
  intros Hdoc Hobs. cbn. unfold SpriteEvents.disconnectFromUndoHistory.
  by rewrite Hdoc, Hobs.
Qed.

Lemma onAddFirstListener_null this (h : Host) :
  SpriteEvents.doc this h = None →
  SpriteEvents.onAddFirstListener SpriteEvents.Change (this, h)
  = Undefined NullPointer.
Proof. intros Hdoc. cbn. by rewrite Hdoc. Qed.

(** C4, on the code.  For the events of a sprite that [doc::get] no longer
    finds, [doc()] is null.  The destructor tests it and does nothing.
    [onRemoveLastListener(Change)] passes it to [disconnectFromUndoHistory],
    which calls [doc->undoHistory()] as the object still observes the undo
    history: [off] of the last "change" listener dereferences the null
    pointer.  So does [onAddFirstListener(Change)], reached from [on] for
    the first "change" listener.  The notifications do not look at [doc()]
    at all: they call the listeners. *)
Theorem stale_sprite_null_dereference :
  SpriteEvents.doc (self (evs stale_sprite)).1 (self (evs stale_sprite)).2
  = None
  ∧ SpriteEvents.destroy (SpriteEvents.mk 5 true) stale_host = Done stale_host
  ∧ onRemoveLastListener SpriteEvents.Change (self (evs stale_sprite))
    = Undefined NullPointer
  ∧ Events_off (LuaInteger 1) stale_sprite = Undefined NullPointer
  ∧ Events_on next_ref (LuaString "change") (LuaFunction 7) stale_sprite_idle
    = Undefined NullPointer
  ∧ SpriteEvents_onAddUndoState quiet_pcall stale_sprite
    = Done ([Called 1 PcallOk], stale_sprite).
Proof. by vm_compute. Qed.

(** ** The registry of sprite events *)

Lemma doc_same_sprites this (h h' : Host) :
  sprites h' = sprites h → SpriteEvents.doc this h' = SpriteEvents.doc this h.
Proof. unfold SpriteEvents.doc. by intros ->. Qed.

(** The destructor never fails; when the document is found it leaves the
    undo history first, if it observes it, and the document after. *)
Lemma destroy_effect this (h : Host) :
  let id := SpriteEvents.m_spriteId this in
  ∃ h',
    SpriteEvents.destroy this h = Done h'
    ∧ sprites h' = sprites h
    ∧ doc_observers h' ⊆ doc_observers h
    ∧ undo_observers h' ⊆ undo_observers h
    ∧ (SpriteEvents.doc this h = None → h' = h)
    ∧ ∀ d, SpriteEvents.doc this h = Some d →
        host_calls h'
        = host_calls h
          ++ (if SpriteEvents.m_observingUndo this
              then [UndoRemoveObserver d id] else [])
          ++ [DocRemoveObserver d id]
        ∧ ((d, id) ∉ doc_observers h')
        ∧ (SpriteEvents.m_observingUndo this = true →
           (d, id) ∉ undo_observers h').
Proof.
  intros id. unfold SpriteEvents.destroy.
  destruct (SpriteEvents.doc this h) as [d|] eqn:Hdoc.
  - unfold SpriteEvents.disconnectFromUndoHistory.
    destruct this as [sid observing]. cbn in id. subst id.
    destruct observing; cbn.
    + eexists. split; [reflexivity|]. cbn.
      split; [done|]. split; [set_solver|]. split; [set_solver|].
      split; [done|]. intros d' [= <-].
      split; [by rewrite <- app_assoc|]. split; [set_solver|].
      intros _. set_solver.
    + eexists. split; [reflexivity|]. cbn.
      split; [done|]. split; [set_solver|]. split; [done|].
      split; [done|]. intros d' [= <-].
      split; [done|]. split; [set_solver|]. done.
  - exists h. repeat split; done.
Qed.

Lemma destroy_all_effect objects : ∀ h : Host,
  ∃ h',
    destroy_all objects h = Done h'
    ∧ sprites h' = sprites h
    ∧ doc_observers h' ⊆ doc_observers h
    ∧ undo_observers h' ⊆ undo_observers h
    ∧ ∀ id object d,
        (id, object) ∈ objects →
        SpriteEvents.doc (self object) h = Some d →
        ((d, SpriteEvents.m_spriteId (self object)) ∉ doc_observers h')
        ∧ (SpriteEvents.m_observingUndo (self object) = true →
           (d, SpriteEvents.m_spriteId (self object)) ∉ undo_observers h').
Proof.
  induction objects as [|[id0 object0] rest IH]; intros h; cbn [destroy_all].
  - exists h. split_and!; try done. by intros ??? ?%not_elem_of_nil.
  - destruct (destroy_effect (self object0) h)
      as (h1 & Hd & Hs1 & Hdo1 & Hun1 & _ & Hgone1).
    destruct (IH h1) as (h' & Hall & Hs & Hdo & Hun & Hgone).
    exists h'. rewrite Hd. simpl. split; [exact Hall|].
    split; [congruence|]. split; [set_solver|]. split; [set_solver|].
    intros id object d Hin Hdoc. apply elem_of_cons in Hin as [[= -> ->]|Hin].
    + destruct (Hgone1 d Hdoc) as (_ & Hnd & Hnu). split; [set_solver|].
      intros Hobs. specialize (Hnu Hobs). set_solver.
    + apply (Hgone id object d Hin). by rewrite (doc_same_sprites _ h h1).
Qed.

Lemma run_exit_slots_effect slots : ∀ g : Globals,
  ∃ g',
    run_exit_slots slots g = Done g'
    ∧ sprites (host g') = sprites (host g)
    ∧ doc_observers (host g') ⊆ doc_observers (host g)
    ∧ undo_observers (host g') ⊆ undo_observers (host g)
    ∧ g_spriteEvents g'
      = (if bool_decide (ClearSpriteEvents ∈ slots) then ∅
         else g_spriteEvents g)
    ∧ (ClearSpriteEvents ∈ slots →
       ∀ id object d,
         g_spriteEvents g !! id = Some object →
         SpriteEvents.doc (self object) (host g) = Some d →
         ((d, SpriteEvents.m_spriteId (self object)) ∉ doc_observers (host g'))
         ∧ (SpriteEvents.m_observingUndo (self object) = true →
            (d, SpriteEvents.m_spriteId (self object))
            ∉ undo_observers (host g'))).
Proof.
  induction slots as [|slot rest IH]; intros g; cbn [run_exit_slots].
  - exists g. split_and!; try done.
    by intros ?%not_elem_of_nil.
  - destruct slot; cbn [run_exit_slot].
    + (* ResetAppEvents *)
      cbn [mbind outcome_bind]. destruct (IH (mkGlobals None (g_spriteEvents g) (atExit g)
                             (Exit g) (host g)))
        as (g' & Hrun & Hs & Hdo & Hun & Hreg & Hgone).
      exists g'. split; [exact Hrun|]. cbn [host g_spriteEvents] in *.
      split_and!; try done.
      * rewrite Hreg.
        assert (Heq : bool_decide (ClearSpriteEvents ∈ rest)
                      = bool_decide (ClearSpriteEvents ∈ ResetAppEvents :: rest)).
        { apply bool_decide_ext. rewrite elem_of_cons.
          split; [by right|]. by intros [?|?]. }
        by rewrite Heq.
      * intros Hin. apply elem_of_cons in Hin as [?|Hin]; [done|].
        by apply Hgone.
    + (* ClearSpriteEvents *)
      destruct (destroy_all_effect (map_to_list (g_spriteEvents g)) (host g))
        as (h1 & Hall & Hs1 & Hdo1 & Hun1 & Hgone1).
      rewrite Hall. cbn [mbind outcome_bind].
      destruct (IH (mkGlobals (g_appEvents g) ∅ (atExit g) (Exit g) h1))
        as (g' & Hrun & Hs & Hdo & Hun & Hreg & _).
      exists g'. split; [exact Hrun|]. cbn [host g_spriteEvents] in *.
      split; [congruence|]. split; [set_solver|]. split; [set_solver|].
      split.
      * rewrite Hreg. rewrite (bool_decide_eq_true_2 (_ ∈ _ :: _)) by left.
        by destruct (bool_decide _).
      * intros _ id object d Hreg0 Hdoc.
        assert (Hin : (id, object) ∈ map_to_list (g_spriteEvents g))
          by by apply elem_of_map_to_list.
        destruct (Hgone1 id object d Hin Hdoc) as [Hnd Hnu].
        split; [set_solver|]. intros Hobs. specialize (Hnu Hobs). set_solver.
Qed.

(** [exit_connected] holds when the program starts and is kept by every
    function that changes the globals. *)
Lemma exit_connected_start h : exit_connected (no_globals h).
Proof.
  split; [done|]. intros id object Hl.
  unfold no_globals in Hl. cbn [g_spriteEvents] in Hl.
  by apply lookup_empty_Some in Hl.
Qed.

Lemma push_sprite_events_connected sprite (g g' : Globals) :
  exit_connected g →
  push_sprite_events sprite g = Done g' →
  exit_connected g' ∧ is_Some (g_spriteEvents g' !! sprite).
Proof.
  intros [Hslot Hflag]. unfold push_sprite_events.
  assert (Hslots : ClearSpriteEvents
                   ∈ (if atExit g then Exit g
                      else Exit g ++ [ClearSpriteEvents])).
  { destruct (atExit g); [by apply Hslot|]. apply elem_of_app. right. left. }
  destruct (g_spriteEvents g !! sprite) as [object|] eqn:Hreg.
  - intros [= <-]. split; [by split|]. cbn [g_spriteEvents]. by rewrite Hreg.
  - intros H. bind_inv H. destruct a as [this h]. inversion H; subst.
    split; [by split|]. cbn. by rewrite lookup_insert_eq.
Qed.

Lemma push_app_events_connected (g : Globals) :
  exit_connected g → exit_connected (push_app_events g).
Proof.
  intros [Hslot Hflag]. unfold push_app_events.
  destruct (g_appEvents g); [done|]. split; [|done].
  cbn. intros Hf. apply elem_of_app. left. by apply Hslot.
Qed.

Lemma onCloseDocument_connected this (g g' : Globals) :
  exit_connected g → onCloseDocument this g = Done g' → exit_connected g'.
Proof.
  intros [Hslot Hflag]. unfold onCloseDocument.
  destruct (g_spriteEvents g !! SpriteEvents.m_spriteId this).
  - intros H. bind_inv H. inversion H; subst. split; [done|]. cbn.
    intros id object Hl. apply lookup_delete_Some in Hl as [_ Hl].
    by eapply Hflag.
  - by intros [= <-].
Qed.

(** C6.  When a [SpriteEvents] that is registered under its sprite id
    receives [onCloseDocument], its entry, and no other, is erased from
    [g_spriteEvents] within the call; the destructor that runs leaves the
    undo history (if the object observes it) before it leaves the document.
    When the [Exit] signal is raised, the destructor of every object of the
    registry has run and the registry is empty ([exit_connected] is the
    state [push_sprite_events] leaves: an object is registered only after
    the slot that clears the registry was connected). *)
Theorem close_and_exit_empty_the_registry :
  (∀ (this : SpriteEvents.t) (owned : Events SpriteEvents.t) (g : Globals),
     let id := SpriteEvents.m_spriteId this in
     g_spriteEvents g !! id = Some owned →
     self owned = this →
     ∃ h',
       onCloseDocument this g
       = Done (mkGlobals (g_appEvents g) (delete id (g_spriteEvents g))
                         (atExit g) (Exit g) h')
       ∧ ∀ d, SpriteEvents.doc this (host g) = Some d →
           host_calls h'
           = host_calls (host g)
             ++ (if SpriteEvents.m_observingUndo this
                 then [UndoRemoveObserver d id] else [])
             ++ [DocRemoveObserver d id]
           ∧ ((d, id) ∉ doc_observers h')
           ∧ (SpriteEvents.m_observingUndo this = true →
              (d, id) ∉ undo_observers h'))
  ∧ (∀ g : Globals,
       exit_connected g →
       ∃ g',
         App_Exit g = Done g'
         ∧ g_spriteEvents g' = ∅
         ∧ ∀ id object d,
             g_spriteEvents g !! id = Some object →
             SpriteEvents.doc (self object) (host g) = Some d →
             ((d, SpriteEvents.m_spriteId (self object))
              ∉ doc_observers (host g'))
             ∧ (SpriteEvents.m_observingUndo (self object) = true →
                (d, SpriteEvents.m_spriteId (self object))
                ∉ undo_observers (host g'))).
Proof.
  split.
  - intros this owned g id Hreg Hself. unfold onCloseDocument. fold id.
    rewrite Hreg, Hself.
    destruct (destroy_effect this (host g)) as (h' & Hd & _ & _ & _ & _ & Hgone).
    exists h'. rewrite Hd. split; [done|]. exact Hgone.
  - intros g [Hslot Hflag]. unfold App_Exit.
    destruct (run_exit_slots_effect (Exit g) g)
      as (g' & Hrun & _ & _ & _ & Hreg & Hgone).
    exists g'. split; [exact Hrun|].
    destruct (decide (ClearSpriteEvents ∈ Exit g)) as [Hin|Hout].
    + split; [by rewrite Hreg, bool_decide_eq_true_2|by apply Hgone].
    + assert (Hempty : g_spriteEvents g = ∅).
      { apply map_empty. intros id.
        destruct (g_spriteEvents g !! id) as [object|] eqn:E; [|done].
        exfalso. apply Hout, Hslot. by eapply Hflag. }
      split; [by rewrite Hreg, bool_decide_eq_false_2|].
      intros id object d Hl. by rewrite Hempty, lookup_empty in Hl.
Qed.

(** Sprite 5 is closed, or the application exits, with two sprites open. *)
Lemma close_and_exit_empty_the_registry_witness :
  (∃ h',
     onCloseDocument (SpriteEvents.mk 5 true) two_open_sprites
     = Done (mkGlobals None
               (delete 5%N (g_spriteEvents two_open_sprites))
               true [ClearSpriteEvents] h')
     ∧ g_spriteEvents two_open_sprites !! 5%N
       = Some (mkEvents [[1]] (SpriteEvents.mk 5 true))
     ∧ delete 5%N (g_spriteEvents two_open_sprites) !! 5%N = None
     ∧ host_calls h'
       = [UndoRemoveObserver 2%N 5%N; DocRemoveObserver 2%N 5%N])
  ∧ ∃ g', App_Exit two_open_sprites = Done g' ∧ g_spriteEvents g' = ∅.
Proof.
  destruct close_and_exit_empty_the_registry as [Hclose Hexit]. split.
  - destruct (Hclose (SpriteEvents.mk 5 true)
                (mkEvents [[1]] (SpriteEvents.mk 5 true)) two_open_sprites)
      as (h' & Hrun & Hdoc); [by vm_compute|done|].
    exists h'. split; [exact Hrun|]. split; [by vm_compute|].
    split; [by vm_compute|].
    destruct (Hdoc 2%N) as (Hcalls & _); [by vm_compute|]. exact Hcalls.
  - destruct (Hexit two_open_sprites) as (g' & Hrun & Hreg & _).
    + split; [intros _; apply list_elem_of_In; by left|done].
    + by exists g'.
Defined.

(** * Further properties of the code *)

(** ** Membership in the table *)

Section TableFacts.
Context {S : Type} `{!EventsImpl S}.

(** [hasListener] looks through the lists of all event types. *)
Lemma hasListener_listed callbackRef (ev : Events S) :
  hasListener callbackRef ev = true
  ↔ ∃ e, 0 ≤ e ∧ callbackRef ∈ listeners_of e (m_listeners ev).
Proof.
  rewrite hasListener_elem. split.
  - intros (l & Hl & Hin). apply list_elem_of_lookup in Hl as [i Hi].
    exists (Z.of_nat i). split; [lia|]. unfold listeners_of.
    destruct (Z.ltb_spec (Z.of_nat i) 0); [lia|].
    by rewrite Nat2Z.id, Hi.
  - intros (e & He & Hin). unfold listeners_of in Hin.
    destruct (Z.ltb_spec e 0); [lia|].
    destruct (m_listeners ev !! Z.to_nat e) as [l|] eqn:Hl.
    + exists l. split; [|done]. by eapply list_elem_of_lookup_2.
    + by apply not_elem_of_nil in Hin.
Qed.

Lemma add_membership (e callbackRef : Z) (ev ev' : Events S) :
  add e callbackRef ev = Done ev' →
  hasListener callbackRef ev' = true
  ∧ ∀ other, other ≠ callbackRef →
             hasListener other ev' = hasListener other ev.
Proof.
  intros Hadd. apply add_listeners in Hadd as [He Hl]. split.
  - apply hasListener_listed. exists e. split; [done|].
    rewrite Hl, bool_decide_eq_true_2 by done.
    apply elem_of_app. right. left.
  - intros other Hne. apply Bool.eq_iff_eq_true.
    rewrite !hasListener_listed. split; intros (e' & He' & Hin).
    + rewrite Hl in Hin. case_bool_decide as Heq.
      * subst e'. apply elem_of_app in Hin as [Hin|Hin]; [by exists e|].
        apply list_elem_of_singleton in Hin. done.
      * by exists e'.
    + destruct (decide (e' = e)) as [->|Hne'].
      * exists e. split; [done|]. rewrite Hl, bool_decide_eq_true_2 by done.
        apply elem_of_app. by left.
      * exists e'. split; [done|]. by rewrite Hl, bool_decide_eq_false_2.
Qed.

Lemma filter_absent callbackRef (l : list Z) :
  callbackRef ∉ l → filter (λ x, x ≠ callbackRef) l = l.
Proof.
  induction l as [|x l IH]; [done|]. intros Hnot.
  apply not_elem_of_cons in Hnot as [Hne Hnot].
  rewrite filter_cons_True by done. by rewrite IH.
Qed.

Lemma absent_everywhere callbackRef (table : list (list Z)) :
  (∀ l, l ∈ table → callbackRef ∉ l) →
  map (filter (λ x, x ≠ callbackRef)) table = table
  ∧ ∀ i, emptied_by callbackRef i table = [].
Proof.
  induction table as [|l rest IH]; intros Habs; [done|].
  destruct IH as [IH1 IH2].
  { intros l' Hl'. apply Habs. by right. }
  assert (Hl : filter (λ x, x ≠ callbackRef) l = l).
  { apply filter_absent, Habs. left. }
  split.
  - cbn [map]. by rewrite Hl, IH1.
  - intros i. cbn [emptied_by]. rewrite Hl, IH2.
    destruct (decide (l = [])) as [->|Hne].
    + by rewrite (bool_decide_eq_false_2 ([] ≠ [])) by (intros H; by apply H).
    + by rewrite (bool_decide_eq_false_2 (l = [])), andb_false_r.
Qed.

Lemma remove_not_listener (callbackRef : Z) (ev : Events S) :
  hasListener callbackRef ev = false → remove callbackRef ev = Done ev.
Proof.
  intros Hnot. rewrite remove_hooks.
  destruct (absent_everywhere callbackRef (m_listeners ev)) as [Hmap Hemp].
  { intros l Hl Hin. apply not_true_iff_false in Hnot. apply Hnot.
    apply hasListener_elem. by exists l. }
  rewrite Hmap, Hemp. cbn. by destruct ev.
Qed.

Lemma hasListener_erased_other ref other (table : list (list Z)) (s s' : S) :
  other ≠ ref →
  hasListener other (mkEvents (map (filter (λ x, x ≠ ref)) table) s')
  = hasListener other (mkEvents table s).
Proof.
  intros Hne. apply Bool.eq_iff_eq_true. rewrite !hasListener_listed.
  cbn [m_listeners].
  split; intros (e & He & Hin); exists e; (split; [done|]).
  - rewrite listeners_of_filtered in Hin.
    by apply list_elem_of_filter in Hin as [_ Hin].
  - rewrite listeners_of_filtered. by apply list_elem_of_filter.
Qed.

(** X1.  After [add e callbackRef] the table has the listener, and it has
    every other listener exactly if it had it before. *)
Theorem add_then_hasListener (e callbackRef : Z) (ev ev' : Events S) :
  add e callbackRef ev = Done ev' →
  hasListener callbackRef ev' = true
  ∧ ∀ other, other ≠ callbackRef →
             hasListener other ev' = hasListener other ev.
Proof. apply add_membership. Qed.

(** X2.  [remove] of a value that is no listener leaves the object as it
    is and runs no hook, whatever the class. *)
Theorem remove_absent (callbackRef : Z) (ev : Events S) :
  hasListener callbackRef ev = false → remove callbackRef ev = Done ev.
Proof. apply remove_not_listener. Qed.

End TableFacts.

(** [remove] of a stranger on the application's events. *)
Lemma remove_absent_witness :
  remove 9 (evs listening_app) = Done (evs listening_app).
Proof. apply (remove_absent 9 (evs listening_app)). by vm_compute. Defined.

(** [add] on the application's events with one listener. *)
Lemma add_then_hasListener_witness :
  ∃ ev', add AppEvents.FgColorChange 4 (evs listening_app) = Done ev'
         ∧ hasListener 4 ev' = true
         ∧ hasListener 1 ev' = true.
Proof.
  assert (Hadd : add AppEvents.FgColorChange 4 (evs listening_app)
                 = Done (mkEvents [[1]; [4]] (AppEvents.mk true true false)))
    by (by vm_compute).
  eexists. split; [exact Hadd|].
  destruct (add_then_hasListener AppEvents.FgColorChange 4 (evs listening_app)
              _ Hadd) as [H4 Hother].
  split; [exact H4|]. rewrite (Hother 1); [by vm_compute|done].
Defined.

(** ** Subscriptions follow the listeners *)

Lemma has_listeners_pushed e callbackRef (table table' : list (list Z)) :
  (∀ e', listeners_of e' table'
         = if bool_decide (e' = e)
           then listeners_of e table ++ [callbackRef]
           else listeners_of e' table) →
  ∀ e', has_listeners e' table'
        = if bool_decide (e' = e) then true else has_listeners e' table.
Proof.
  intros Hl e'. unfold has_listeners. rewrite Hl.
  destruct (decide (e' = e)) as [->|Hne].
  - rewrite !(bool_decide_eq_true_2 (e = e)) by done.
    rewrite bool_decide_eq_false_2; [done|].
    by destruct (listeners_of e table).
  - by rewrite !(bool_decide_eq_false_2 (e' = e)).
Qed.

Lemma has_listeners_erased callbackRef e (table : list (list Z)) :
  has_listeners e (map (filter (λ x, x ≠ callbackRef)) table)
  = has_listeners e table
    && negb (bool_decide (e ∈ emptied_by callbackRef 0 table)).
Proof.
  unfold has_listeners. rewrite listeners_of_filtered.
  destruct (decide (e ∈ emptied_by callbackRef 0 table)) as [Hin|Hout].
  - rewrite (bool_decide_eq_true_2 _ Hin), andb_false_r.
    apply elem_of_emptied_by in Hin as (_ & _ & Hf).
    rewrite Z.sub_0_r in Hf. by rewrite Hf.
  - rewrite (bool_decide_eq_false_2 _ Hout), andb_true_r.
    destruct (decide (listeners_of e table = [])) as [Hnil|Hne].
    + by rewrite Hnil.
    + rewrite (bool_decide_eq_false_2 _ Hne).
      rewrite bool_decide_eq_false_2; [done|]. intros Hf. apply Hout.
      apply elem_of_emptied_by. rewrite Z.sub_0_r. split; [|done].
      destruct (Z.ltb_spec e 0); [|lia]. exfalso. apply Hne.
      unfold listeners_of. by destruct (Z.ltb_spec e 0); [|lia].
Qed.

Lemma app_remove_hook e (s : AppEvents.t) :
  AppEvents.onRemoveLastListener e s
  = Done (AppEvents.mk
            (AppEvents.observing_context s
             && negb (bool_decide (AppEvents.SiteChange = e)))
            (AppEvents.m_fgConn s
             && negb (bool_decide (AppEvents.FgColorChange = e)))
            (AppEvents.m_bgConn s
             && negb (bool_decide (AppEvents.BgColorChange = e)))).
Proof.
  destruct s as [o f b]. unfold AppEvents.onRemoveLastListener.
  unfold AppEvents.SiteChange, AppEvents.FgColorChange,
    AppEvents.BgColorChange.
  cbn [AppEvents.observing_context AppEvents.m_fgConn AppEvents.m_bgConn].
  destruct (Z.eqb_spec e 0) as [->|H0].
  { cbn. by rewrite !andb_true_r, andb_false_r. }
  destruct (Z.eqb_spec e 1) as [->|H1].
  { cbn. by rewrite !andb_true_r, andb_false_r. }
  destruct (Z.eqb_spec e 2) as [->|H2].
  { cbn. by rewrite !andb_true_r, andb_false_r. }
  rewrite (bool_decide_eq_false_2 (0 = e)) by done.
  rewrite (bool_decide_eq_false_2 (1 = e)) by done.
  rewrite (bool_decide_eq_false_2 (2 = e)) by done.
  cbn. by rewrite !andb_true_r.
Qed.

Lemma bool_decide_elem_cons (k e : Z) (rest : list Z) :
  bool_decide (k ∈ e :: rest) = bool_decide (k = e) || bool_decide (k ∈ rest).
Proof.
  destruct (decide (k = e)) as [->|Hne].
  - rewrite (bool_decide_eq_true_2 (e = e)) by done.
    by rewrite bool_decide_eq_true_2 by left.
  - rewrite (bool_decide_eq_false_2 (k = e)) by done. cbn [orb].
    apply bool_decide_ext. rewrite elem_of_cons. intuition.
Qed.

(** The hooks of [AppEvents] over a list of event types. *)
Lemma app_run_hooks types : ∀ s : AppEvents.t,
  run_hooks AppEvents.onRemoveLastListener types s
  = Done (AppEvents.mk
            (AppEvents.observing_context s
             && negb (bool_decide (AppEvents.SiteChange ∈ types)))
            (AppEvents.m_fgConn s
             && negb (bool_decide (AppEvents.FgColorChange ∈ types)))
            (AppEvents.m_bgConn s
             && negb (bool_decide (AppEvents.BgColorChange ∈ types)))).
Proof.
  induction types as [|e rest IH]; intros s.
  - destruct s. cbn. by rewrite !andb_true_r.
  - cbn [run_hooks]. rewrite app_remove_hook. cbn [mbind outcome_bind].
    rewrite IH, !bool_decide_elem_cons.
    cbn [AppEvents.observing_context AppEvents.m_fgConn AppEvents.m_bgConn].
    by rewrite !negb_orb, !andb_assoc.
Qed.

Lemma app_add_hook e (s : AppEvents.t) :
  AppEvents.onAddFirstListener e s
  = Done (AppEvents.mk
            (AppEvents.observing_context s
             || bool_decide (AppEvents.SiteChange = e))
            (AppEvents.m_fgConn s
             || bool_decide (AppEvents.FgColorChange = e))
            (AppEvents.m_bgConn s
             || bool_decide (AppEvents.BgColorChange = e))).
Proof.
  destruct s as [o f b]. unfold AppEvents.onAddFirstListener.
  unfold AppEvents.SiteChange, AppEvents.FgColorChange,
    AppEvents.BgColorChange.
  cbn [AppEvents.observing_context AppEvents.m_fgConn AppEvents.m_bgConn].
  destruct (Z.eqb_spec e 0) as [->|H0].
  { cbn. by rewrite !orb_false_r, orb_true_r. }
  destruct (Z.eqb_spec e 1) as [->|H1].
  { cbn. by rewrite !orb_false_r, orb_true_r. }
  destruct (Z.eqb_spec e 2) as [->|H2].
  { cbn. by rewrite !orb_false_r, orb_true_r. }
  rewrite (bool_decide_eq_false_2 (0 = e)) by done.
  rewrite (bool_decide_eq_false_2 (1 = e)) by done.
  rewrite (bool_decide_eq_false_2 (2 = e)) by done.
  by rewrite !orb_false_r.
Qed.

Lemma app_step_subscribed (o : op) (ev : Events AppEvents.t) :
  app_subscribed ev → ∃ ev', step o ev = Done ev' ∧ app_subscribed ev'.
Proof.
  destruct ev as [table s]. unfold app_subscribed. cbn [m_listeners self].
  intros (Ho & Hf & Hb). destruct o as [e0 callbackRef|callbackRef]; cbn [step].
  - destruct (add_hook (S := AppEvents.t) (Z.of_nat e0) callbackRef table
                ltac:(lia)) as (table' & Hl & Hadd).
    pose proof (has_listeners_pushed _ _ _ _ Hl) as Hhas.
    rewrite Hadd. destruct (has_listeners (Z.of_nat e0) table) eqn:He.
    + eexists. split; [reflexivity|]. cbn [m_listeners self].
      rewrite !Hhas, Ho, Hf, Hb.
      split_and!; case_bool_decide; congruence.
    + change (onAddFirstListener (Z.of_nat e0) s)
        with (AppEvents.onAddFirstListener (Z.of_nat e0) s).
      rewrite app_add_hook. cbn [mbind outcome_bind].
      eexists. split; [reflexivity|]. cbn [m_listeners self].
      cbn [AppEvents.observing_context AppEvents.m_fgConn AppEvents.m_bgConn].
      rewrite !Hhas, Ho, Hf, Hb.
      split_and!; case_bool_decide; by rewrite ?orb_true_r, ?orb_false_r.
  - rewrite remove_hooks. cbn [m_listeners self].
    change (run_hooks onRemoveLastListener)
      with (run_hooks AppEvents.onRemoveLastListener).
    rewrite app_run_hooks. cbn [mbind outcome_bind].
    eexists. split; [reflexivity|]. cbn [m_listeners self].
    cbn [AppEvents.observing_context AppEvents.m_fgConn AppEvents.m_bgConn].
    by rewrite !has_listeners_erased, Ho, Hf, Hb.
Qed.

(** X3.  Started from a state in which the application's events are
    subscribed to each notification exactly when the event has a listener
    (as they are when the object is created), every sequence of [add] and
    [remove] calls returns and ends in such a state: the object observes
    the context, and is connected to a colour signal, exactly while the
    event has listeners. *)
Theorem app_subscriptions_follow_listeners (ops : list op)
    (ev : Events AppEvents.t) :
  app_subscribed ev →
  ∃ ev', run ops ev = Done ev' ∧ app_subscribed ev'.
Proof.
  revert ev. induction ops as [|o rest IH]; intros ev Hsub.
  - by exists ev.
  - destruct (app_step_subscribed o ev Hsub) as (ev1 & Hstep & Hsub1).
    destruct (IH ev1 Hsub1) as (ev' & Hrun & Hsub').
    exists ev'. split; [|done]. cbn [run]. by rewrite Hstep.
Qed.

(** Two listeners come and one goes on a new [AppEvents]. *)
Lemma app_subscriptions_follow_listeners_witness :
  ∃ ev', run [OpAdd 0 1; OpAdd 2 2; OpRemove 1] (evs fresh_app) = Done ev'
         ∧ app_subscribed ev'.
Proof.
  apply (app_subscriptions_follow_listeners
           [OpAdd 0 1; OpAdd 2 2; OpRemove 1] (evs fresh_app)).
  by vm_compute.
Defined.

Lemma sprite_remove_hook e (this : SpriteEvents.t) (h : Host) :
  SpriteEvents.onRemoveLastListener e (this, h)
  = if e =? 0
    then SpriteEvents.disconnectFromUndoHistory (SpriteEvents.doc this h) this h
    else Done (this, h).
Proof. done. Qed.

Lemma sprite_add_hook e (this : SpriteEvents.t) (h : Host) :
  SpriteEvents.onAddFirstListener e (this, h)
  = if e =? 0
    then match SpriteEvents.doc this h with
         | Some d =>
             Done (SpriteEvents.mk (SpriteEvents.m_spriteId this) true,
                   undo_add_observer d (SpriteEvents.m_spriteId this) h)
         | None => Undefined NullPointer
         end
    else Done (this, h).
Proof. done. Qed.

Lemma sprite_remove_hooks d types : ∀ (this : SpriteEvents.t) (h : Host),
  SpriteEvents.doc this h = Some d →
  run_hooks SpriteEvents.onRemoveLastListener types (this, h)
  = Done (if bool_decide (SpriteEvents.Change ∈ types)
             && SpriteEvents.m_observingUndo this
          then (SpriteEvents.mk (SpriteEvents.m_spriteId this) false,
                undo_remove_observer d (SpriteEvents.m_spriteId this) h)
          else (this, h)).
Proof.
  unfold SpriteEvents.Change.
  induction types as [|e rest IH]; intros this h Hdoc; [done|].
  cbn [run_hooks]. rewrite bool_decide_elem_cons, sprite_remove_hook.
  destruct (Z.eqb_spec e 0) as [->|Hne].
  - rewrite Hdoc. unfold SpriteEvents.disconnectFromUndoHistory.
    destruct this as [id observing]. cbn [SpriteEvents.m_observingUndo
      SpriteEvents.m_spriteId]. destruct observing; cbn [mbind outcome_bind].
    + rewrite IH by done. cbn. by rewrite andb_false_r.
    + rewrite IH by done. cbn. by rewrite !andb_false_r.
  - cbn [mbind outcome_bind]. rewrite IH by done.
    by rewrite (bool_decide_eq_false_2 (0 = e)) by done.
Qed.

Lemma sprite_step_subscribed d (o : op) (ev : Events (SpriteEvents.t * Host)) :
  sprite_subscribed d ev →
  ∃ ev', step o ev = Done ev' ∧ sprite_subscribed d ev'.
Proof.
  destruct ev as [table [[id observing] h]]. unfold sprite_subscribed.
  cbn [m_listeners self fst snd SpriteEvents.m_observingUndo
         SpriteEvents.m_spriteId].
  intros (Hdoc & Hobs & Hset).
  destruct o as [e0 callbackRef|callbackRef]; cbn [step].
  - destruct (add_hook (S := SpriteEvents.t * Host) (Z.of_nat e0) callbackRef
                table ltac:(lia)) as (table' & Hl & Hadd).
    pose proof (has_listeners_pushed _ _ _ _ Hl) as Hhas.
    rewrite Hadd. destruct (has_listeners (Z.of_nat e0) table) eqn:He.
    + eexists. split; [reflexivity|].
      cbn [m_listeners self fst snd SpriteEvents.m_observingUndo
             SpriteEvents.m_spriteId].
      split; [done|]. split; [|done]. rewrite Hhas, Hobs.
      case_bool_decide as Heq; [|done]. by rewrite <- Heq in He.
    + change (onAddFirstListener (Z.of_nat e0) (SpriteEvents.mk id observing, h))
        with (SpriteEvents.onAddFirstListener (Z.of_nat e0)
                (SpriteEvents.mk id observing, h)).
      rewrite sprite_add_hook. unfold SpriteEvents.Change in *.
      destruct (Z.eqb_spec (Z.of_nat e0) 0) as [H0|H0].
      * rewrite Hdoc. cbn [mbind outcome_bind]. eexists. split; [reflexivity|].
        cbn [m_listeners self fst snd SpriteEvents.m_observingUndo
               SpriteEvents.m_spriteId].
        split; [done|]. split.
        -- rewrite Hhas. by rewrite bool_decide_eq_true_2.
        -- cbn. split; [done|]. intros _. set_solver.
      * cbn [mbind outcome_bind]. eexists. split; [reflexivity|].
        cbn [m_listeners self fst snd SpriteEvents.m_observingUndo
               SpriteEvents.m_spriteId].
        split; [done|]. split; [|done]. rewrite Hhas, Hobs.
        by rewrite bool_decide_eq_false_2.
  - rewrite remove_hooks. cbn [m_listeners self].
    change (run_hooks onRemoveLastListener)
      with (run_hooks SpriteEvents.onRemoveLastListener).
    rewrite (sprite_remove_hooks d) by done. cbn [mbind outcome_bind].
    eexists. split; [reflexivity|].
    cbn [m_listeners self SpriteEvents.m_observingUndo SpriteEvents.m_spriteId].
    rewrite has_listeners_erased, <- Hobs.
    destruct (bool_decide (SpriteEvents.Change ∈ _)) eqn:Hin;
      destruct observing;
      cbn [andb negb fst snd SpriteEvents.m_observingUndo
             SpriteEvents.m_spriteId].
    + split; [done|]. split; [done|]. cbn. split; [|done]. set_solver.
    + done.
    + done.
    + done.
Qed.

(** X4.  While the document of a sprite is found, no sequence of [add] and
    [remove] calls on the sprite's events dereferences a null pointer, and
    after each of them the object observes the undo history of the document
    exactly when "change" has a listener. *)
Theorem sprite_undo_subscription_follows_listeners (d : Doc) (ops : list op)
    (ev : Events (SpriteEvents.t * Host)) :
  sprite_subscribed d ev →
  ∃ ev', run ops ev = Done ev' ∧ sprite_subscribed d ev'.
Proof.
  revert ev. induction ops as [|o rest IH]; intros ev Hsub.
  - by exists ev.
  - destruct (sprite_step_subscribed d o ev Hsub) as (ev1 & Hstep & Hsub1).
    destruct (IH ev1 Hsub1) as (ev' & Hrun & Hsub').
    exists ev'. split; [|done]. cbn [run]. by rewrite Hstep.
Qed.

(** Sprite 5 of document 2: two "change" listeners come and go. *)
Lemma sprite_undo_subscription_follows_listeners_witness :
  ∃ ev', run [OpAdd 0 1; OpAdd 0 2; OpRemove 1; OpRemove 2] live_sprite
         = Done ev'
         ∧ sprite_subscribed 2%N ev'.
Proof.
  apply (sprite_undo_subscription_follows_listeners 2%N
           [OpAdd 0 1; OpAdd 0 2; OpRemove 1; OpRemove 2] live_sprite).
  unfold sprite_subscribed. split; [by vm_compute|]. split; [by vm_compute|].
  cbn. split; [|done]. set_solver.
Defined.

(** ** What [on] and [off] leave alone *)

Section GlueFacts.
Context {S : Type} `{!EventsImpl S}.

(** The reference [Events_off] works on. *)
Lemma Events_off_inv (x : lua_value) (w w' : Script S) ret :
  Events_off x w = Done (ret, w') →
  w' = w
  ∨ ∃ ref evs',
      hasListener ref (evs w) = true
      ∧ remove ref (evs w) = Done evs'
      ∧ w' = mkScript (luaL_unref ref (lua w)) evs'.
Proof.
  unfold Events_off.
  set (finish := λ callbackRef : Z,
         if negb (callbackRef =? LUA_REFNIL) && hasListener callbackRef (evs w)
         then evs' ← remove callbackRef (evs w);
              Done (Returns [], mkScript (luaL_unref callbackRef (lua w)) evs')
         else Done (Returns [], w)).
  assert (Hfinish : ∀ ref, finish ref = Done (ret, w') →
            w' = w
            ∨ ∃ ref evs', hasListener ref (evs w) = true
                ∧ remove ref (evs w) = Done evs'
                ∧ w' = mkScript (luaL_unref ref (lua w)) evs').
  { intros ref. unfold finish.
    destruct (negb (ref =? LUA_REFNIL)); cbn [andb]; [|by intros [= _ <-]; left].
    destruct (hasListener ref (evs w)) eqn:Hhas; [|by intros [= _ <-]; left].
    intros H. bind_inv H. inversion H; subst. right. by exists ref, a. }
  destruct (lua_isinteger x); [apply Hfinish|].
  destruct (lua_isfunction x); [apply Hfinish|].
  intros [= _ <-]. by left.
Qed.


(** X7.  [on] and [off] keep every listener of the table registered: if the
    registry holds a function under each listener before the call, it does
    so after it. *)
Theorem on_off_keep_listeners_registered (w : Script S) :
  listeners_registered w →
  (∀ free_ref eventName callback ret w',
     Events_on free_ref eventName callback w = Done (ret, w') →
     listeners_registered w')
  ∧ (∀ x ret w', Events_off x w = Done (ret, w') → listeners_registered w').
Proof.
  intros Hreg. split.
  - intros free_ref eventName callback ret w'. unfold Events_on.
    destruct (lua_tostring eventName) as [name|]; [|by intros [= _ <-]].
    destruct (eventType name <? 0); [by intros [= _ <-]|].
    destruct (lua_isfunction callback) eqn:Hfn; cbn [negb];
      [|by intros [= _ <-]].
    rewrite (luaL_ref_function _ _ _ Hfn). intros H. bind_inv H.
    inversion H; subst. intros ref Hhas. cbn [evs lua] in *.
    unfold lua_rawgeti. cbn [registry].
    destruct (decide (ref = free_ref (registry (lua w)))) as [->|Hne].
    + by rewrite lookup_insert_eq.
    + rewrite lookup_insert_ne by done. apply Hreg.
      apply add_membership in E as [_ Hother]. by rewrite <- Hother.
  - intros x ret w' Hoff.
    apply Events_off_inv in Hoff as [->|(ref & evs' & _ & Hrem & ->)]; [done|].
    intros other Hhas. cbn [evs lua] in *.
    assert (Hne : other ≠ ref).
    { intros ->. by rewrite (remove_hasListener _ _ _ Hrem) in Hhas. }
    assert (Hbefore : hasListener other (evs w) = true).
    { pose proof (remove_table _ _ _ Hrem) as Htab.
      destruct evs' as [table' s']. destruct (evs w) as [table s].
      cbn [m_listeners] in Htab. subst table'.
      by rewrite (hasListener_erased_other ref other table s s') in Hhas. }
    specialize (Hreg other Hbefore). unfold lua_rawgeti, luaL_unref in *.
    destruct (0 <=? ref); [|done]. cbn [registry].
    by rewrite lookup_delete_ne.
Qed.

End GlueFacts.


(** The application's events with one listener, before and after a
    second [on] and after [off]. *)
Lemma on_off_keep_listeners_registered_witness :
  listeners_registered listening_app
  ∧ listeners_registered
      (mkScript (mkLua (<[2 := LuaFunction 8]> {[ 1 := LuaFunction 7 ]}))
                (mkEvents [[1; 2]] (AppEvents.mk true false false)))
  ∧ listeners_registered
      (mkScript (mkLua ∅) (mkEvents [[]] (AppEvents.mk false false false))).
Proof.
  assert (Hreg : listeners_registered listening_app).
  { intros ref Hhas. apply hasListener_listed in Hhas as (e & He & Hin).
    destruct (decide (e = 0)) as [->|Hne].
    - apply list_elem_of_singleton in Hin as ->. done.
    - exfalso. unfold listeners_of in Hin. destruct (Z.ltb_spec e 0); [lia|].
      replace (Z.to_nat e) with (Datatypes.S (Z.to_nat (e - 1))) in Hin by lia.
      cbn in Hin. by apply not_elem_of_nil in Hin. }
  destruct (on_off_keep_listeners_registered listening_app Hreg) as [Hon Hoff].
  split; [exact Hreg|]. split.
  - apply (Hon next_ref (LuaString "sitechange") (LuaFunction 8)
             (Returns [LuaInteger 2])).
    by vm_compute.
  - apply (Hoff (LuaInteger 1) (Returns [])). by vm_compute.
Defined.

(** ** [on] followed by [off] *)




(** ** Creating and closing sprite events *)

(** X8.  A second [push_sprite_events] for the same sprite changes nothing:
    no second object is created, no observer is added and no slot is
    connected to [Exit] again. *)
Theorem push_sprite_events_twice (sprite : ObjectId) (g g' : Globals) :
  push_sprite_events sprite g = Done g' →
  push_sprite_events sprite g' = Done g'.
Proof.
  intros Hpush.
  assert (Hg' : atExit g' = true ∧ is_Some (g_spriteEvents g' !! sprite)).
  { unfold push_sprite_events in Hpush.
    destruct (g_spriteEvents g !! sprite) as [object|] eqn:Hreg.
    - inversion Hpush; subst. cbn. by rewrite Hreg.
    - bind_inv Hpush. destruct a as [this h]. inversion Hpush; subst. cbn.
      by rewrite lookup_insert_eq. }
  destruct Hg' as [Hflag [object Hobj]].
  unfold push_sprite_events. rewrite Hobj, Hflag.
  destruct g' as [app reg flag slots h]. cbn in Hflag. by subst flag.
Qed.

(** The first and the second request for the events of sprite 5. *)
Lemma push_sprite_events_twice_witness :
  ∃ g', push_sprite_events 5%N (no_globals open_document) = Done g'
        ∧ push_sprite_events 5%N g' = Done g'.
Proof.
  eexists. split; [by vm_compute|].
  apply (push_sprite_events_twice 5%N (no_globals open_document)).
  by vm_compute.
Defined.

(** What the destructor leaves in the two observer sets: every pair of
    another object. *)
Lemma destroy_keeps_others this (h h' : Host) :
  SpriteEvents.destroy this h = Done h' →
  sprites h' = sprites h
  ∧ ∀ d o, o ≠ SpriteEvents.m_spriteId this →
      ((d, o) ∈ doc_observers h' ↔ (d, o) ∈ doc_observers h)
      ∧ ((d, o) ∈ undo_observers h' ↔ (d, o) ∈ undo_observers h).
Proof.
  unfold SpriteEvents.destroy.
  destruct (SpriteEvents.doc this h) as [d0|]; [|by intros [= <-]].
  unfold SpriteEvents.disconnectFromUndoHistory.
  destruct this as [id observing]. cbn [SpriteEvents.m_observingUndo
    SpriteEvents.m_spriteId]. destruct observing; cbn; intros [= <-]; cbn;
    (split; [done|]); intros d o Hne; split; set_solver.
Qed.

(** X9.  [push_sprite_events] and [onCloseDocument] keep the registry in
    order: each object stays registered under the id of its own sprite
    and stays an observer of its document until it is destroyed. *)
Theorem sprite_registry_stays_wf (g : Globals) :
  sprite_registry_wf g →
  (∀ sprite g', push_sprite_events sprite g = Done g' →
                sprite_registry_wf g')
  ∧ (∀ id object g',
       g_spriteEvents g !! id = Some object →
       onCloseDocument (self object) g = Done g' →
       sprite_registry_wf g' ∧ g_spriteEvents g' !! id = None).
Proof.
  intros Hwf. split.
  - intros sprite g'. unfold push_sprite_events.
    destruct (g_spriteEvents g !! sprite) as [object|] eqn:Hreg.
    + intros [= <-]. exact Hwf.
    + intros H. bind_inv H. destruct a as [this h]. inversion H; subst.
      unfold SpriteEvents.create in E.
      destruct (SpriteEvents.doc _ (host g)) as [d|] eqn:Hdoc; [|done].
      inversion E; subst. intros id object. cbn [g_spriteEvents host].
      destruct (decide (id = sprite)) as [->|Hne].
      * rewrite lookup_insert_eq. intros [= <-]. cbn [self].
        split; [done|]. intros d'.
        rewrite (doc_same_sprites _ (host g)) by done.
        rewrite Hdoc. intros [= <-]. cbn. set_solver.
      * rewrite lookup_insert_ne by done. intros Hobj.
        destruct (Hwf id object Hobj) as [Hid Hobs]. split; [done|].
        intros d' Hd'. rewrite (doc_same_sprites _ (host g)) in Hd' by done.
        cbn. specialize (Hobs d' Hd'). set_solver.
  - intros id object g' Hobj. destruct (Hwf id object Hobj) as [Hid _].
    unfold onCloseDocument. rewrite Hid, Hobj. intros H. bind_inv H.
    inversion H; subst. cbn [g_spriteEvents host].
    split; [|apply lookup_delete_eq].
    destruct (destroy_keeps_others _ _ _ E) as [Hs Hkeep].
    intros id' object' Hobj'. cbn [g_spriteEvents host] in *.
    apply lookup_delete_Some in Hobj' as [Hne Hobj'].
    destruct (Hwf id' object' Hobj') as [Hid' Hobs]. split; [done|].
    intros d Hd. rewrite (doc_same_sprites _ _ _ Hs) in Hd.
    apply Hkeep; [congruence|]. by apply Hobs.
Qed.

(** The registry with the two open sprites, after sprite 5 is closed. *)
Lemma sprite_registry_stays_wf_witness :
  sprite_registry_wf two_open_sprites
  ∧ ∃ g', onCloseDocument (SpriteEvents.mk 5 true) two_open_sprites = Done g'
          ∧ sprite_registry_wf g'
          ∧ g_spriteEvents g' !! 5%N = None.
Proof.
  assert (Hwf : sprite_registry_wf two_open_sprites).
  { intros id object Hobj. unfold two_open_sprites in Hobj.
    cbn [g_spriteEvents] in Hobj.
    apply lookup_insert_Some in Hobj as [[<- <-]|[Hne Hobj]].
    - split; [done|]. intros d [= <-]. cbn. set_solver.
    - apply lookup_singleton_Some in Hobj as [<- <-].
      split; [done|]. intros d [= <-]. cbn. set_solver. }
  split; [exact Hwf|].
  destruct (sprite_registry_stays_wf two_open_sprites Hwf) as [_ Hclose].
  eexists. split; [by vm_compute|].
  apply (Hclose 5%N (mkEvents [[1]] (SpriteEvents.mk 5 true))); by vm_compute.
Defined.

(** X10.  Creating the events of a sprite and then closing its document
    gives back the registry and the observers there were: the object is
    erased again and has left the document it joined. *)
Theorem push_then_close_restores (sprite : ObjectId) (d : Doc) (g : Globals) :
  sprites (host g) !! sprite = Some (Some d) →
  g_spriteEvents g !! sprite = None →
  (d, sprite) ∉ doc_observers (host g) →
  ∃ g1 g2,
    push_sprite_events sprite g = Done g1
    ∧ onCloseDocument (SpriteEvents.mk sprite false) g1 = Done g2
    ∧ g_spriteEvents g2 = g_spriteEvents g
    ∧ doc_observers (host g2) = doc_observers (host g)
    ∧ undo_observers (host g2) = undo_observers (host g)
    ∧ host_calls (host g2)
      = host_calls (host g)
        ++ [DocAddObserver d sprite; DocRemoveObserver d sprite].
Proof.
  intros Hsprite Hreg Hnot. unfold push_sprite_events, SpriteEvents.create.
  rewrite Hreg. unfold SpriteEvents.doc at 1.
  cbn [SpriteEvents.m_spriteId]. rewrite Hsprite. cbn [mbind outcome_bind].
  eexists _, _. split; [reflexivity|].
  unfold onCloseDocument. cbn [g_spriteEvents SpriteEvents.m_spriteId host].
  rewrite lookup_insert_eq. cbn [self]. unfold SpriteEvents.destroy.
  unfold SpriteEvents.doc. cbn [SpriteEvents.m_spriteId sprites doc_add_observer].
  rewrite Hsprite. cbn.
  split; [reflexivity|]. cbn. split_and!.
  - by apply delete_insert_id.
  - set_solver.
  - done.
  - by rewrite <- app_assoc.
Qed.

(** Sprite 5 of document 2 gets its events and is closed. *)
Lemma push_then_close_restores_witness :
  ∃ g1 g2,
    push_sprite_events 5%N (no_globals open_document) = Done g1
    ∧ onCloseDocument (SpriteEvents.mk 5 false) g1 = Done g2
    ∧ g_spriteEvents g2 = ∅
    ∧ doc_observers (host g2) = ∅.
Proof.
  destruct (push_then_close_restores 5%N 2%N (no_globals open_document))
    as (g1 & g2 & H1 & H2 & Hreg & Hobs & _); [by vm_compute|done|set_solver|].
  by exists g1, g2.
Defined.

(** ** The application's events and [Exit] *)

Lemma run_exit_slots_app slots : ∀ g : Globals,
  ∃ g',
    run_exit_slots slots g = Done g'
    ∧ g_appEvents g'
      = if bool_decide (ResetAppEvents ∈ slots) then None else g_appEvents g.
Proof.
  induction slots as [|slot rest IH]; intros g; cbn [run_exit_slots].
  - by exists g.
  - destruct slot; cbn [run_exit_slot].
    + cbn [mbind outcome_bind].
      destruct (IH (mkGlobals None (g_spriteEvents g) (atExit g) (Exit g)
                      (host g))) as (g' & Hrun & Happ).
      exists g'. split; [exact Hrun|]. rewrite Happ. cbn [g_appEvents].
      rewrite (bool_decide_eq_true_2 (_ ∈ _ :: _)) by left.
      by destruct (bool_decide _).
    + destruct (destroy_all_effect (map_to_list (g_spriteEvents g)) (host g))
        as (h1 & Hall & _).
      rewrite Hall. cbn [mbind outcome_bind].
      destruct (IH (mkGlobals (g_appEvents g) ∅ (atExit g) (Exit g) h1))
        as (g' & Hrun & Happ).
      exists g'. split; [exact Hrun|]. rewrite Happ. cbn [g_appEvents].
      assert (Heq : bool_decide (ResetAppEvents ∈ rest)
                    = bool_decide (ResetAppEvents ∈ ClearSpriteEvents :: rest)).
      { apply bool_decide_ext. rewrite elem_of_cons.
        split; [by right|]. by intros [?|?]. }
      by rewrite Heq.
Qed.

(** X11.  [push_app_events] creates the application's events once: a second
    call changes nothing.  The object it creates has no listener and no
    subscription, and it is destroyed when [Exit] is raised. *)
Theorem push_app_events_once (g : Globals) :
  push_app_events (push_app_events g) = push_app_events g
  ∧ is_Some (g_appEvents (push_app_events g))
  ∧ (g_appEvents g = None →
     g_appEvents (push_app_events g)
     = Some (mkEvents [] (AppEvents.mk false false false))
     ∧ ∃ g', App_Exit (push_app_events g) = Done g' ∧ g_appEvents g' = None).
Proof.
  destruct (g_appEvents g) as [object|] eqn:Happ.
  - assert (Hp : push_app_events g = g)
      by (unfold push_app_events; by rewrite Happ).
    rewrite !Hp. split_and!; [done|by rewrite Happ|congruence].
  - assert (Hp : push_app_events g
                 = mkGlobals
                     (Some (mkEvents [] (AppEvents.mk false false false)))
                     (g_spriteEvents g) (atExit g)
                     (Exit g ++ [ResetAppEvents]) (host g))
      by (unfold push_app_events; by rewrite Happ).
    rewrite !Hp. split_and!; [done|done|]. intros _. split; [done|].
    unfold App_Exit. cbn [Exit].
    destruct (run_exit_slots_app (Exit g ++ [ResetAppEvents])
                (mkGlobals (Some (mkEvents [] (AppEvents.mk false false false)))
                           (g_spriteEvents g) (atExit g)
                           (Exit g ++ [ResetAppEvents]) (host g)))
      as (g' & Hrun & Hnone).
    exists g'. split; [exact Hrun|]. rewrite Hnone.
    rewrite bool_decide_eq_true_2; [done|]. apply elem_of_app. right. left.
Qed.

(** ** Event names and event types *)

(** X12.  In both classes the event type depends only on the name as a C
    string, and two names with the same recognised event type are the same
    C string: no two names share an event type. *)
Theorem eventType_one_name_per_type (a b : string) :
  (c_str a = c_str b →
   AppEvents.eventType a = AppEvents.eventType b
   ∧ SpriteEvents.eventType a = SpriteEvents.eventType b)
  ∧ (0 ≤ AppEvents.eventType a →
     AppEvents.eventType a = AppEvents.eventType b → c_str a = c_str b)
  ∧ (0 ≤ SpriteEvents.eventType a →
     SpriteEvents.eventType a = SpriteEvents.eventType b → c_str a = c_str b).
Proof.
  unfold AppEvents.eventType, SpriteEvents.eventType.
  unfold AppEvents.SiteChange, AppEvents.FgColorChange,
    AppEvents.BgColorChange, AppEvents.Unknown, SpriteEvents.Change,
    SpriteEvents.FilenameChange, SpriteEvents.Unknown.
  rewrite !strcmp_eqb. split_and!.
  - by intros ->.
  - repeat case_bool_decide; intros; try lia; congruence.
  - repeat case_bool_decide; intros; try lia; congruence.
Qed.

(** ["change"] followed by a NUL and more is the event "change". *)
Lemma eventType_one_name_per_type_witness :
  SpriteEvents.eventType (String.append "change" (String Ascii.zero "junk"))
  = SpriteEvents.eventType "change"
  ∧ c_str "sitechange" = c_str "sitechange".
Proof.
  destruct (eventType_one_name_per_type
              (String.append "change" (String Ascii.zero "junk")) "change")
    as (Hsame & _ & _).
  destruct (eventType_one_name_per_type "sitechange" "sitechange")
    as (_ & Happ & _).
  split; [by apply Hsame|]. apply Happ; by vm_compute.
Defined.

(** ** More on [Events::call] *)

Section MoreCallFacts.
Context {S : Type} `{!EventsImpl S}.
Variable lua_pcall : lua_value → Script S → pcall_result * Script S.

(** X13.  An event without listeners is dispatched to nobody, whatever the
    callbacks would do: for an event type that is negative, or beyond the
    table, or whose list is empty, [call] returns at once, calls and prints
    nothing and leaves everything as it was. *)
Theorem call_without_listeners (eventType : Z) (w : Script S) :
  listeners_of eventType (m_listeners (evs w)) = [] →
  call lua_pcall eventType w = Done ([], w).
Proof.
  intros Hnone. unfold call. rewrite Hnone. by destruct (_ || _).
Qed.

(** X14.  [call] calls listeners of the event only: a value that is no
    listener of the table, such as a reference [off] has removed, is not
    called (the callbacks leaving the table alone). *)
Theorem call_skips_strangers (eventType ref : Z) (w : Script S) :
  keeps_table lua_pcall →
  hasListener ref (evs w) = false →
  ∃ events w',
    call lua_pcall eventType w = Done (events, w') ∧ ref ∉ called events.
Proof.
  intros Hkeep Hnot. unfold call. destruct (_ || _) eqn:Hrange.
  - exists [], w. split; [done|]. apply not_elem_of_nil.
  - destruct (call_loop_quiet lua_pcall eventType Hkeep
                (listeners_of eventType (m_listeners (evs w))) w)
      as (events & w' & Hloop & Hpre & _).
    exists events, w'. split; [done|]. intros Hin.
    apply not_true_iff_false in Hnot. apply Hnot.
    apply hasListener_listed. exists eventType.
    apply orb_false_iff in Hrange as [Hneg _]. apply Z.ltb_ge in Hneg.
    split; [done|]. destruct Hpre as [rest ->].
    apply elem_of_app. by left.
Qed.

(** X15.  A listener registered by [on] is called after the listeners the
    event had: when [on] has returned the reference [ref] for an event, the
    next [call] for that event calls the former listeners in their order
    and then [ref] (the callbacks leaving the table alone and none of them
    throwing). *)
Theorem call_after_on (free_ref : gmap Z lua_value → Z)
    (eventName callback : lua_value) (name : string) (ref : Z)
    (w w1 : Script S) :
  keeps_table lua_pcall →
  lua_tostring eventName = Some name →
  Events_on free_ref eventName callback w
  = Done (Returns [LuaInteger ref], w1) →
  ∃ events w2,
    call lua_pcall (eventType name) w1 = Done (events, w2)
    ∧ (existsb throws (statuses events) = false →
       called events
       = listeners_of (eventType name) (m_listeners (evs w)) ++ [ref]).
Proof.
  intros Hkeep Hname Hon. unfold Events_on in Hon. rewrite Hname in Hon.
  destruct (Z.ltb_spec (eventType name) 0) as [|Hpos]; [done|].
  destruct (lua_isfunction callback) eqn:Hfn; cbn [negb] in Hon; [|done].
  rewrite (luaL_ref_function _ _ _ Hfn) in Hon. bind_inv Hon.
  inversion Hon; subst. cbn [evs].
  destruct (add_listeners _ _ _ _ E) as [_ Hl].
  specialize (Hl (eventType name)).
  rewrite bool_decide_eq_true_2 in Hl by done.
  unfold call. cbn [evs].
  assert (Hin : Z.of_nat (length (m_listeners a)) <=? eventType name = false).
  { apply Z.leb_gt. unfold listeners_of in Hl.
    destruct (Z.ltb_spec (eventType name) 0); [lia|].
    destruct (decide (Z.to_nat (eventType name) < length (m_listeners a))%nat);
      [lia|].
    rewrite (lookup_ge_None_2 (m_listeners a)) in Hl by lia.
    cbn in Hl. by destruct (default [] _). }
  destruct (Z.ltb_spec (eventType name) 0); [lia|]. rewrite Hin. cbn [orb].
  destruct (call_loop_quiet lua_pcall (eventType name) Hkeep
              (listeners_of (eventType name) (m_listeners a))
              (mkScript (mkLua (<[free_ref (registry (lua w)) := callback]>
                                  (registry (lua w)))) a))
    as (events & w2 & Hloop & _ & Hall & _).
  exists events, w2. split; [done|]. intros Hno. by rewrite (Hall Hno), Hl.
Qed.

End MoreCallFacts.

(** An event of the application that has no listener. *)
Lemma call_without_listeners_witness :
  call failing_pcall AppEvents.BgColorChange three_listeners
  = Done ([], three_listeners).
Proof.
  apply (call_without_listeners failing_pcall AppEvents.BgColorChange
           three_listeners).
  by vm_compute.
Defined.

(** Reference 9 is no listener of the three. *)
Lemma call_skips_strangers_witness :
  ∃ events w',
    call quiet_pcall AppEvents.SiteChange three_listeners = Done (events, w')
    ∧ 9 ∉ called events.
Proof.
  apply (call_skips_strangers quiet_pcall AppEvents.SiteChange 9
           three_listeners); [done|by vm_compute].
Defined.

(** A second "sitechange" listener is called after the first. *)
Lemma call_after_on_witness :
  ∃ events w2,
    call quiet_pcall AppEvents.SiteChange
      (mkScript (mkLua (<[2 := LuaFunction 8]> {[ 1 := LuaFunction 7 ]}))
                (mkEvents [[1; 2]] (AppEvents.mk true false false)))
    = Done (events, w2)
    ∧ (existsb throws (statuses events) = false → called events = [1; 2]).
Proof.
  destruct (call_after_on quiet_pcall next_ref (LuaString "sitechange")
              (LuaFunction 8) "sitechange" 2 listening_app
              (mkScript (mkLua (<[2 := LuaFunction 8]> {[ 1 := LuaFunction 7 ]}))
                        (mkEvents [[1; 2]] (AppEvents.mk true false false))))
    as (events & w2 & Hcall & Hall); [done|done|by vm_compute|].
  exists events, w2. split; [exact Hcall|exact Hall].
Defined.

(** ** The integer argument of [off] *)

Lemma to_int_wraps (i : Z) : to_int (i + 2 ^ 32) = to_int i.
Proof.
  unfold to_int. replace (i + 2 ^ 32 + 2 ^ 31) with (i + 2 ^ 31 + 1 * 2 ^ 32)
    by lia.
  by rewrite Z_mod_plus_full.
Qed.

(** X16.  [off] stores its integer argument in an [int]: a [lua_Integer]
    that differs from a listener by a multiple of 2^32 is converted to that
    listener, and [off] acts on it as on the listener itself. *)
Theorem Events_off_converts_to_int {S : Type} `{!EventsImpl S}
    (i : Z) (w : Script S) :
  Events_off (LuaInteger (i + 2 ^ 32)) w = Events_off (LuaInteger i) w.
Proof.
  unfold Events_off. cbn [lua_isinteger lua_tointeger].
  by rewrite to_int_wraps.
Qed.
